(** * WrapPyJ: the library analyzer (scripts/python/framework/analyzer.py)

    A shallow embedding of the analyzer and the properties of its
    signature-extraction cascade and of its package traversal.

    Python values are modelled as follows.
    - [str] is [string]; a character is a code point below 256.
    - An exception is a value of [exn]; a computation that may raise
      has a result in [res].
    - [functions] and [classes] are insertion-ordered dictionaries,
      modelled as association lists without duplicate keys.
    - The interpreter services the analyzer calls ([importlib],
      [pkgutil.walk_packages], [inspect.getmembers], [inspect.signature],
      [inspect.getdoc]) are the environment: the first two are section
      variables, the others are fields of the objects a module holds.
      [pkgutil_walk_packages] gives the walk of [pkgutil] for a listing
      of the packages on disk, with the imports the walk makes itself.
    - [inspect.getmembers] and [repr] are taken to return.  In the source
      both run outside any [try] block and can raise; a statement about
      [analyze_library] returning therefore takes as a hypothesis that
      the visits return, whatever makes them raise.
    - The calls the analyzer's own code makes to the environment are
      recorded in a trace of events. *)

From Stdlib Require Import List Bool Arith Lia Ascii String.
Import ListNotations.
Open Scope string_scope.
Open Scope list_scope.

Set Implicit Arguments.

(* ================================================================== *)
(** * Python strings *)
(* ================================================================== *)

Module PyStr.

(** [str.isspace] on one character (also the class [\s] of [re] for a
    [str] pattern), for code points below 256. *)
Definition isspace (c : ascii) : bool :=
  let n := nat_of_ascii c in
  (Nat.leb 9 n && Nat.leb n 13) || (Nat.leb 28 n && Nat.leb n 32)
  || Nat.eqb n 133 || Nat.eqb n 160.

Definition is_empty (s : string) : bool :=
  match s with EmptyString => true | String _ _ => false end.

(** Truth value of a [str]: non-empty. *)
Definition truthy (s : string) : bool := negb (is_empty s).

(** [c in chars]. *)
Fixpoint char_in (c : ascii) (chars : string) : bool :=
  match chars with
  | EmptyString => false
  | String d r => Ascii.eqb c d || char_in c r
  end.

Fixpoint lstrip_by (p : ascii -> bool) (s : string) : string :=
  match s with
  | EmptyString => EmptyString
  | String c r => if p c then lstrip_by p r else s
  end.

Fixpoint rstrip_by (p : ascii -> bool) (s : string) : string :=
  match s with
  | EmptyString => EmptyString
  | String c r =>
      let r' := rstrip_by p r in
      if is_empty r' && p c then EmptyString else String c r'
  end.

Definition strip_by (p : ascii -> bool) (s : string) : string :=
  lstrip_by p (rstrip_by p s).

(** [s.strip()] *)
Definition strip (s : string) : string := strip_by isspace s.

(** [s.strip(chars)] *)
Definition strip_chars (chars s : string) : string :=
  strip_by (fun c => char_in c chars) s.

(** [s.split(sep)] for a one-character separator: never the empty list. *)
Fixpoint split (sep : ascii) (s : string) : list string :=
  match s with
  | EmptyString => [EmptyString]
  | String c r =>
      if Ascii.eqb c sep then EmptyString :: split sep r
      else match split sep r with
           | h :: t => String c h :: t
           | [] => [String c EmptyString]
           end
  end.

(** [s.split(sep)[0]] *)
Definition split_head (sep : ascii) (s : string) : string :=
  hd EmptyString (split sep s).

(** [c in s] for a one-character needle. *)
Definition contains (c : ascii) (s : string) : bool := char_in c s.

(** [s.startswith(p)] *)
Fixpoint startswith (s p : string) : bool :=
  match p, s with
  | EmptyString, _ => true
  | String _ _, EmptyString => false
  | String a p', String b s' => Ascii.eqb a b && startswith s' p'
  end.

(** [s.endswith(p)] *)
Fixpoint endswith (s p : string) : bool :=
  match s with
  | EmptyString => is_empty p
  | String _ s' => String.eqb s p || endswith s' p
  end.

(** [s.endswith(tuple)] *)
Definition endswith_any (s : string) (ps : list string) : bool :=
  existsb (endswith s) ps.

(** [x in {..}] for a set of strings. *)
Definition str_in (x : string) (xs : list string) : bool :=
  existsb (String.eqb x) xs.

(** [sum(p(x) for x in xs)] for a boolean [p]. *)
Definition count {A} (p : A -> bool) (xs : list A) : nat :=
  List.length (filter p xs).

End PyStr.

Import PyStr.

(* ================================================================== *)
(** * Exceptions and results *)
(* ================================================================== *)

(** The exception classes the analyzer tells apart.  [SystemExit],
    [KeyboardInterrupt], [GeneratorExit] and [OtherBaseException] derive
    from [BaseException] only; the others derive from [Exception]. *)
Inductive exn : Type :=
| SystemExit
| KeyboardInterrupt
| GeneratorExit
| OtherBaseException
| TypeError
| ValueError
| ImportError
| AttributeError
| OtherException.

(** [isinstance(e, Exception)] *)
Definition is_Exception (e : exn) : bool :=
  match e with
  | SystemExit | KeyboardInterrupt | GeneratorExit | OtherBaseException => false
  | TypeError | ValueError | ImportError | AttributeError | OtherException => true
  end.

(** [isinstance(e, SystemExit)] *)
Definition is_SystemExit (e : exn) : bool :=
  match e with SystemExit => true | _ => false end.

(** [isinstance(e, (TypeError, ValueError))] *)
Definition is_TypeError_or_ValueError (e : exn) : bool :=
  match e with TypeError | ValueError => true | _ => false end.

(** Outcome of a Python expression: a value, or a raised exception. *)
Inductive res (A : Type) : Type :=
| Ret (a : A)
| Raise (e : exn).
Arguments Ret {A} a.
Arguments Raise {A} e.

Definition rbind {A B} (r : res A) (k : A -> res B) : res B :=
  match r with
  | Ret a => k a
  | Raise e => Raise e
  end.

(** [try: r  except <caught>: handler] *)
Definition try_except {A} (r : res A) (caught : exn -> bool) (handler : res A)
  : res A :=
  match r with
  | Ret a => Ret a
  | Raise e => if caught e then handler else Raise e
  end.

Definition returns {A} (r : res A) : bool :=
  match r with Ret _ => true | Raise _ => false end.

Declare Scope res_scope.
Delimit Scope res_scope with res.
Notation "x <- c ;; k" := (rbind c (fun x => k))
  (at level 61, c at next level, right associativity) : res_scope.
Notation "' pat <- c ;; k" := (rbind c (fun x => match x with pat => k end))
  (at level 61, pat pattern, c at next level, right associativity) : res_scope.

(* ================================================================== *)
(** * Live objects, as [inspect] shows them *)
(* ================================================================== *)

(** [inspect.Parameter.kind] *)
Inductive ParameterKind : Type :=
| POSITIONAL_ONLY
| POSITIONAL_OR_KEYWORD
| VAR_POSITIONAL
| KEYWORD_ONLY
| VAR_KEYWORD.

(** [inspect.Parameter]; [p_default = None] is [Parameter.empty], and a
    default value is kept as its source text. *)
Record Param : Type := {
  p_name : string;
  p_default : option string;
  p_kind : ParameterKind
}.

(** What the analyzer reads from a callable: the attributes [__module__],
    [__name__] and [__text_signature__] ([None] when the attribute is
    missing or is [None]), [repr], and the outcomes of
    [inspect.signature] and [inspect.getdoc]. *)
Record callable : Type := {
  dunder_module : option string;
  dunder_name : option string;
  repr : string;
  signature : res (list Param);
  getdoc : res (option string);
  text_signature : option string
}.

(** A class: what it shows as a callable, and its function members as
    [inspect.getmembers(cls, inspect.isfunction)] lists them.  A class
    always has a [__name__]. *)
Record class : Type := {
  cls_name : string;
  cls_module : option string;
  cls_repr : string;
  cls_signature : res (list Param);
  cls_getdoc : res (option string);
  cls_text_signature : option string;
  cls_functions : list (string * callable)
}.

(** A member of a module. *)
Inductive obj : Type :=
| NotCallable
| CallableObj (f : callable)
| ClassObj (c : class).

(** The class seen as a callable (every class object is callable). *)
Definition callable_of_class (c : class) : callable :=
  {| dunder_module := cls_module c;
     dunder_name := Some (cls_name c);
     repr := cls_repr c;
     signature := cls_signature c;
     getdoc := cls_getdoc c;
     text_signature := cls_text_signature c |}.

(** The callable view of an object that is callable. *)
Definition as_callable (o : obj) : option callable :=
  match o with
  | NotCallable => None
  | CallableObj f => Some f
  | ClassObj c => Some (callable_of_class c)
  end.

(** The class view of an object that is a class. *)
Definition as_class (o : obj) : option class :=
  match o with
  | ClassObj c => Some c
  | _ => None
  end.

(** A loaded module: [__name__], [__path__] when it is a package, and the
    pairs [inspect.getmembers(mod)] lists, in its (sorted) order.
    Listing the members is taken to return: [inspect.getmembers] itself
    catches [AttributeError] only, and a module on which it raises is
    outside this record. *)
Record module : Type := {
  mod_name : string;
  mod_path : option (list string);
  mod_members : list (string * obj)
}.

(** True for any Python callable. *)
Definition _is_callable (o : obj) : bool :=
  match o with
  | NotCallable => false
  | CallableObj _ | ClassObj _ => true
  end.

(** [inspect.isclass] *)
Definition isclass (o : obj) : bool :=
  match o with
  | ClassObj _ => true
  | NotCallable | CallableObj _ => false
  end.

(** [inspect.getmembers(mod, predicate)], when it returns. *)
Definition getmembers (m : module) (predicate : obj -> bool)
  : list (string * obj) :=
  filter (fun member => predicate (snd member)) (mod_members m).

(* ================================================================== *)
(** * Records of the result *)
(* ================================================================== *)

Record FunctionRecord : Type := {
  fr_name : string;
  fr_args : list string;
  fr_optionalCount : nat;
  fr_doc : string;
  fr_module : string
}.

Record MethodRecord : Type := {
  mr_name : string;
  mr_args : list string;
  mr_optionalCount : nat;
  mr_doc : string
}.

Record ClassRecord : Type := {
  cr_name : string;
  cr_doc : string;
  cr_methods : list MethodRecord;
  cr_module : option string
}.

Inductive AnalysisResult : Type :=
| ErrorResult (error : string)
| LibraryResult (library : string) (functions : list FunctionRecord)
    (classes : list ClassRecord).

(* ================================================================== *)
(** * Helpers for signature / docstring extraction *)
(* ================================================================== *)

Definition VERBOSE : bool := false.
Definition SKIP_PATTERNS : list string := [".f2py"].

Definition comma : ascii := ","%char.
Definition equals : ascii := "="%char.

(** [arg in {"/", "*"}] *)
Definition is_separator (arg : string) : bool := str_in arg ["/"; "*"].

(** The loop of [parse_text_signature] over the comma-separated pieces. *)
Fixpoint parse_text_signature_loop (pieces : list string) : list string :=
  match pieces with
  | [] => []
  | arg :: rest =>
      let arg := strip arg in
      if is_separator arg || is_empty arg
      then parse_text_signature_loop rest
      else strip (split_head equals arg) :: parse_text_signature_loop rest
  end.

Definition parse_text_signature (sig : string) : list string :=
  if is_empty sig then []
  else
    let sig := strip_chars "()" (strip sig) in
    parse_text_signature_loop (split comma sig).

Definition _count_optional (p : Param) : bool :=
  match p_default p with
  | Some _ => true
  | None =>
      match p_kind p with
      | VAR_POSITIONAL | VAR_KEYWORD => true
      | _ => false
      end
  end.

Definition _parse_sig (obj : callable) : res (list string * nat) :=
  try_except
    (sig <- signature obj ;;
     Ret (map p_name sig, count _count_optional sig))%res
    is_TypeError_or_ValueError
    (Ret ([], 0)).

(** ** The pattern [^\s*[a-zA-Z_][a-zA-Z0-9_]*\((.*?)\)] of [re.match]

    Each greedy class is followed by a character outside the class, so
    only its longest run can match; the lazy group stops at the first
    [")"], and [.] does not match a newline. *)

Definition in_range (lo hi : nat) (c : ascii) : bool :=
  let n := nat_of_ascii c in Nat.leb lo n && Nat.leb n hi.

Definition is_ident_start (c : ascii) : bool :=
  in_range 97 122 c || in_range 65 90 c || Ascii.eqb c "_"%char.

Definition is_ident_char (c : ascii) : bool :=
  is_ident_start c || in_range 48 57 c.

Definition newline : ascii := ascii_of_nat 10.

(** [(.*?)\)]: the group, when the rest of the pattern matches. *)
Fixpoint lazy_group_until_rparen (s : string) : option string :=
  match s with
  | EmptyString => None
  | String c r =>
      if Ascii.eqb c ")"%char then Some EmptyString
      else if Ascii.eqb c newline then None
      else option_map (String c) (lazy_group_until_rparen r)
  end.

(** [m = re.match(pattern, doc)]; the result is [m.group(1)]. *)
Definition re_match_signature (doc : string) : option string :=
  match lstrip_by isspace doc with
  | String c r =>
      if is_ident_start c then
        match lstrip_by is_ident_char r with
        | String p r' =>
            if Ascii.eqb p "("%char then lazy_group_until_rparen r' else None
        | EmptyString => None
        end
      else None
  | EmptyString => None
  end.

(** [x or ""] for an optional string. *)
Definition or_empty (x : option string) : string :=
  match x with Some s => s | None => EmptyString end.

(** [getattr(func, "__name__", repr(func))], when [repr(func)] returns:
    the source evaluates [repr(func)] first, whether or not the object
    has a [__name__], and the value is used only when it has none. *)
Definition name_or_repr (func : callable) : string :=
  match dunder_name func with
  | Some n => n
  | None => repr func
  end.

Definition is_nil {A} (l : list A) : bool :=
  match l with [] => true | _ :: _ => false end.

(** The docstring step: [pieces], then names and count. *)
Definition doc_pieces (sig_part : string) : list string :=
  map strip
    (filter (fun p => negb (is_separator (strip p))) (split comma sig_part)).

Definition doc_args (pieces : list string) : list string :=
  map (fun p => strip (split_head equals p)) pieces.

(** The fallbacks of [get_function_metadata], entered when [not args]. *)
Definition signature_fallback (func : callable) (doc : string)
    (args : list string) (opt : nat) : list string * nat :=
  match text_signature func with
  | Some (String _ _ as text_sig) =>
      (parse_text_signature text_sig,
       count (contains equals) (split comma (strip_chars "()" text_sig)))
  | _ =>
      if truthy doc then
        match re_match_signature doc with
        | Some sig_part =>
            let pieces := doc_pieces sig_part in
            (doc_args pieces, count (contains equals) pieces)
        | None => (args, opt)
        end
      else (args, opt)
  end.

(** The [try] block that opens [get_function_metadata]. *)
Definition structured_step (func : callable)
  : res (list string * nat * string) :=
  try_except
    ('(args, opt) <- _parse_sig func ;;
     d <- getdoc func ;;
     Ret (args, opt, or_empty d))%res
    is_Exception
    (Ret ([], 0, EmptyString)).

Definition get_function_metadata (func : callable) (module_name : string)
  : res FunctionRecord :=
  ('(args, opt, doc) <- structured_step func ;;
   let '(args, opt) :=
     if is_nil args then signature_fallback func doc args opt
     else (args, opt) in
   Ret {| fr_name := name_or_repr func;
          fr_args := args;
          fr_optionalCount := opt;
          fr_doc := doc;
          fr_module := module_name |})%res.

(** [name.startswith("__") and name.endswith("__") and name != "__init__"] *)
Definition is_skipped_dunder (name : string) : bool :=
  startswith name "__" && endswith name "__" && negb (String.eqb name "__init__").

Fixpoint get_class_methods (members : list (string * callable))
  : res (list MethodRecord) :=
  match members with
  | [] => Ret []
  | (name, member) :: rest =>
      if is_skipped_dunder name then get_class_methods rest
      else
        ('(args, opt) <- _parse_sig member ;;
         d <- getdoc member ;;
         methods <- get_class_methods rest ;;
         Ret ({| mr_name := name;
                 mr_args := args;
                 mr_optionalCount := opt;
                 mr_doc := or_empty d |} :: methods))%res
  end.

Definition get_class_metadata (cls : class) : res ClassRecord :=
  (methods <- get_class_methods (cls_functions cls) ;;
   d <- cls_getdoc cls ;;
   Ret {| cr_name := cls_name cls;
          cr_doc := or_empty d;
          cr_methods := methods;
          cr_module := cls_module cls |})%res.

(* ================================================================== *)
(** * Insertion-ordered dictionaries *)
(* ================================================================== *)

Definition dict (V : Type) : Type := list (string * V).

(** [k in d] *)
Definition dict_contains {V} (k : string) (d : dict V) : bool :=
  existsb (fun kv => String.eqb k (fst kv)) d.

(** [d[k] = v]: a new key goes last, a key already there keeps its place. *)
Fixpoint dict_setitem {V} (k : string) (v : V) (d : dict V) : dict V :=
  match d with
  | [] => [(k, v)]
  | (k', v') :: rest =>
      if String.eqb k k' then (k, v) :: rest
      else (k', v') :: dict_setitem k v rest
  end.

(** [list(d.keys())] and [list(d.values())] *)
Definition dict_keys {V} (d : dict V) : list string := map fst d.
Definition dict_values {V} (d : dict V) : list V := map snd d.

(* ================================================================== *)
(** * The traversal: state, events, and the monad of [analyze_library] *)
(* ================================================================== *)

Inductive member_predicate : Type := pred_is_callable | pred_isclass.

(** The skip notices printed in verbose mode. *)
Inductive diagnostic : Type :=
| tried_to_exit (name : string)
| could_not_import (name : string)
| matches_SKIP_PATTERNS (name : string).

(** The calls the analyzer's own code makes: [importlib.import_module]
    from [safe_import], [inspect.getmembers] on a module from [visit],
    the call of [pkgutil.walk_packages], and [print].  What
    [pkgutil.walk_packages] does while it runs (it imports every package
    it yields) is no event of this trace. *)
Inductive event : Type :=
| EvImport (name : string)
| EvGetMembers (module_name : string) (predicate : member_predicate)
| EvWalkPackages (path : list string) (prefix : string)
| EvPrint (notice : diagnostic).

(** The two dictionaries [visit] closes over, and the calls made so far. *)
Record state : Type := {
  st_functions : dict FunctionRecord;
  st_classes : dict ClassRecord;
  st_trace : list event
}.

Definition initial_state : state :=
  {| st_functions := []; st_classes := []; st_trace := [] |}.

Definition M (A : Type) : Type := state -> res A * state.

Definition mret {A} (a : A) : M A := fun st => (Ret a, st).

Definition mraise {A} (e : exn) : M A := fun st => (Raise e, st).

Definition mbind {A B} (c : M A) (k : A -> M B) : M B :=
  fun st =>
    match c st with
    | (Ret a, st') => k a st'
    | (Raise e, st') => (Raise e, st')
    end.

Definition lift {A} (r : res A) : M A := fun st => (r, st).

(** [try: c  except ...: ...], the first clause that matches. *)
Fixpoint first_handler {A} (e : exn) (handlers : list ((exn -> bool) * M A))
  : M A :=
  match handlers with
  | [] => mraise e
  | (caught, handler) :: rest =>
      if caught e then handler else first_handler e rest
  end.

Definition mtry_except {A} (c : M A) (handlers : list ((exn -> bool) * M A))
  : M A :=
  fun st =>
    match c st with
    | (Ret a, st') => (Ret a, st')
    | (Raise e, st') => first_handler e handlers st'
    end.

Definition log (ev : event) : M unit :=
  fun st =>
    (Ret tt, {| st_functions := st_functions st;
                st_classes := st_classes st;
                st_trace := st_trace st ++ [ev] |}).

Definition set_function (k : string) (v : FunctionRecord) : M unit :=
  fun st =>
    (Ret tt, {| st_functions := dict_setitem k v (st_functions st);
                st_classes := st_classes st;
                st_trace := st_trace st |}).

Definition set_class (k : string) (v : ClassRecord) : M unit :=
  fun st =>
    (Ret tt, {| st_functions := st_functions st;
                st_classes := dict_setitem k v (st_classes st);
                st_trace := st_trace st |}).

(** [functions = {}] and [classes = {}] *)
Definition new_dicts : M unit :=
  fun st =>
    (Ret tt, {| st_functions := []; st_classes := [];
                st_trace := st_trace st |}).

Declare Scope M_scope.
Delimit Scope M_scope with M.
Notation "x <- c ;; k" := (mbind c (fun x => k))
  (at level 61, c at next level, right associativity) : M_scope.
Notation "c ;;; k" := (mbind c (fun _ => k))
  (at level 61, right associativity) : M_scope.

(** [if VERBOSE: print(notice)] *)
Definition when_verbose (notice : diagnostic) : M unit :=
  if VERBOSE then log (EvPrint notice) else mret tt.

(** [for x in xs: body(x)] *)
Fixpoint for_each {A} (xs : list A) (body : A -> M unit) : M unit :=
  match xs with
  | [] => mret tt
  | x :: rest => (body x ;;; for_each rest body)%M
  end.

Section Interpreter.

(** [importlib.import_module]: the module, or the exception the import
    raises. *)
Variable import_module : string -> res module.

(** [pkgutil.walk_packages(path, prefix, onerror)]: the names the
    generator yields, and the exception that ends it, if any.  The
    [onerror] callback only prints, in verbose mode.  The generator
    imports every package it yields, outside [safe_import]; how the pair
    follows from those imports is [pkgutil_walk_packages] below. *)
Variable walk_packages : list string -> string -> list string * option exn.

Definition safe_import (name : string) : M (option module) :=
  (log (EvImport name) ;;;
   mtry_except
     (lift (m <- import_module name ;; Ret (Some m))%res)
     [(is_SystemExit,
       when_verbose (tried_to_exit name) ;;; mret None);
      (is_Exception,
       when_verbose (could_not_import name) ;;; mret None)])%M.

Section Analysis.

Variable lib_name : string.

(** [allow = set(include_only or ())] *)
Variable allow : list string.

Definition _want (name : string) : bool :=
  is_nil allow || str_in name allow.

(** Body of the first loop of [visit]. *)
Definition visit_function (o : obj) : M unit :=
  match as_callable o with
  | None => mret tt
  | Some f =>
      let module_name := or_empty (dunder_module f) in
      if negb (startswith module_name lib_name) then mret tt
      else
        let fn_name := name_or_repr f in
        if negb (_want fn_name) then mret tt
        else
          fun st =>
            if dict_contains fn_name (st_functions st) then (Ret tt, st)
            else (r <- lift (get_function_metadata f module_name) ;;
                  set_function fn_name r)%M st
  end.

(** [f"{module_name}.{cls.__name__}"] *)
Definition class_key (module_name name : string) : string :=
  (module_name ++ "." ++ name)%string.

(** Body of the second loop of [visit]. *)
Definition visit_class (o : obj) : M unit :=
  match as_class o with
  | None => mret tt
  | Some cls =>
      let module_name := or_empty (cls_module cls) in
      if negb (startswith module_name lib_name) then mret tt
      else if negb (_want (cls_name cls)) then mret tt
      else
        let key := class_key module_name (cls_name cls) in
        fun st =>
          if dict_contains key (st_classes st) then (Ret tt, st)
          else (r <- lift (get_class_metadata cls) ;;
                set_class key r)%M st
  end.

Definition visit (md : option module) : M unit :=
  match md with
  | None => mret tt
  | Some m =>
      (log (EvGetMembers (mod_name m) pred_is_callable) ;;;
       for_each (map snd (getmembers m _is_callable)) visit_function ;;;
       log (EvGetMembers (mod_name m) pred_isclass) ;;;
       for_each (map snd (getmembers m isclass)) visit_class)%M
  end.

(** Body of the loop over [pkgutil.walk_packages]. *)
Definition visit_submodule (subname : string) : M unit :=
  if endswith_any subname SKIP_PATTERNS
  then when_verbose (matches_SKIP_PATTERNS subname)
  else (m <- safe_import subname ;; visit m)%M.

(** [analyze_library] once the root module is loaded. *)
Definition analyze_loaded (root : module) : M AnalysisResult :=
  (visit (Some root) ;;;
   match is_nil allow, mod_path root with
   | true, Some path =>
       let prefix := (mod_name root ++ ".")%string in
       let '(subnames, stop) := walk_packages path prefix in
       log (EvWalkPackages path prefix) ;;;
       for_each subnames visit_submodule ;;;
       match stop with
       | None => mret tt
       | Some e => mraise e
       end
   | _, _ => mret tt
   end ;;;
   fun st =>
     (Ret (LibraryResult lib_name
             (dict_values (st_functions st))
             (dict_values (st_classes st))), st))%M.

End Analysis.

(** [include_only or ()], as the list of the set's elements. *)
Definition allow_of (include_only : option (list string)) : list string :=
  match include_only with
  | Some names => names
  | None => []
  end.

Definition analyze_library (lib_name : string)
    (include_only : option (list string)) : M AnalysisResult :=
  (root <- safe_import lib_name ;;
   match root with
   | None => mret (ErrorResult ("Failed to import " ++ lib_name)%string)
   | Some root =>
       new_dicts ;;;
       analyze_loaded lib_name (allow_of include_only) root
   end)%M.

End Interpreter.

(* ================================================================== *)
(** * The package walk of [pkgutil] *)
(* ================================================================== *)

(** A [pkgutil.ModuleInfo] as [pkgutil.iter_modules] yields it: the name
    and the [ispkg] flag; and, for a package, what [iter_modules] lists
    under the [__path__] the package shows once imported (the path items
    seen before left out), with the name of the package and a dot as
    prefix. *)
#[warnings="-register-all"] Inductive ModuleInfo : Type :=
| module_info (name : string) (ispkg : bool) (below : list ModuleInfo).

(** [for info in infos: ...] in a generator: what is yielded, in order,
    and the exception that ends the generator, if any. *)
Fixpoint walk_all {A} (walk : A -> list (string * bool) * option exn)
    (infos : list A) : list (string * bool) * option exn :=
  match infos with
  | [] => ([], None)
  | info :: rest =>
      match walk info with
      | (yielded, Some e) => (yielded, Some e)
      | (yielded, None) =>
          let '(more, stop) := walk_all walk rest in
          (yielded ++ more, stop)
      end
  end.

Section PackageWalk.

(** [__import__], with the outcomes of [importlib.import_module]. *)
Variable import_module : string -> res module.

(** One round of the loop of [pkgutil.walk_packages]: [yield info];
    then, for a package, [__import__(info.name)].  An [ImportError]
    and, an [onerror] callback being given, any other [Exception] go to
    the callback; any other exception ends the generator.  After an
    import that succeeds the walk goes on under the [__path__] of the
    package, when it has one that is not empty. *)
Fixpoint walk_info (info : ModuleInfo) : list (string * bool) * option exn :=
  match info with
  | module_info name ispkg below =>
      let '(yielded, stop) :=
        if ispkg then
          match import_module name with
          | Raise e => if is_Exception e then ([], None) else ([], Some e)
          | Ret m =>
              match mod_path m with
              | Some (_ :: _) => walk_all walk_info below
              | _ => ([], None)
              end
          end
        else ([], None) in
      ((name, ispkg) :: yielded, stop)
  end.

(** [pkgutil.iter_modules(path, prefix)] *)
Variable iter_modules : list string -> string -> list ModuleInfo.

(** The [(name, ispkg)] pairs the walk yields, and how it ends. *)
Definition walk_infos (path : list string) (prefix : string)
  : list (string * bool) * option exn :=
  walk_all walk_info (iter_modules path prefix).

(** [pkgutil.walk_packages(path, prefix, onerror)] as the analyzer reads
    it: the names, and the exception that ends the walk, if any. *)
Definition pkgutil_walk_packages (path : list string) (prefix : string)
  : list string * option exn :=
  (map fst (fst (walk_infos path prefix)), snd (walk_infos path prefix)).

End PackageWalk.

(* ================================================================== *)
(** * The extraction cascade in the words of the specification *)
(* ================================================================== *)

(** The tokens of a signature text: its comma-separated pieces, trimmed,
    the empty ones left out. *)
Definition spec_tokens (text : string) : list string :=
  filter (fun t => negb (is_empty t)) (map strip (split comma text)).

(** The substring of a token before ["="]. *)
Definition spec_param_name (token : string) : string :=
  strip (split_head equals token).

(** Step 2: strip the enclosing parentheses, split on commas, discard the
    bare ["/"] and ["*"] tokens, name each remaining token. *)
Definition spec_text_args (text_sig : string) : list string :=
  map spec_param_name
    (filter (fun t => negb (is_separator t))
       (spec_tokens (strip_chars "()" (strip text_sig)))).

(** Step 2: the tokens that contain ["="]. *)
Definition spec_text_optional (text_sig : string) : nat :=
  count (contains equals)
    (filter (fun t => negb (is_separator t))
       (spec_tokens (strip_chars "()" (strip text_sig)))).

(** Step 1: a parameter is optional when it carries a default value or is
    variable-positional or variable-keyword. *)
Definition spec_carries_default (p : Param) : bool :=
  match p_default p with Some _ => true | None => false end.

Definition spec_is_variadic (p : Param) : bool :=
  match p_kind p with
  | VAR_POSITIONAL | VAR_KEYWORD => true
  | _ => false
  end.

Definition spec_optional_count (ps : list Param) : nat :=
  List.length
    (filter (fun p => spec_carries_default p || spec_is_variadic p) ps).

(** The first line of a documentation text. *)
Fixpoint first_line (doc : string) : string :=
  match doc with
  | EmptyString => EmptyString
  | String c r =>
      if Ascii.eqb c newline then EmptyString else String c (first_line r)
  end.

(** What follows the first line, from its newline on. *)
Fixpoint after_first_line (doc : string) : string :=
  match doc with
  | EmptyString => EmptyString
  | String c r =>
      if Ascii.eqb c newline then doc else after_first_line r
  end.

(* ================================================================== *)
(** * Conditions on the interpreter and invariants of the traversal *)
(* ================================================================== *)

(** The outcome raises nothing, or only an exception of the given kind. *)
Definition raises_only {A} (allowed : exn -> bool) (r : res A) : bool :=
  match r with
  | Ret _ => true
  | Raise e => allowed e
  end.

(** Introspection of a callable that [get_function_metadata] contains. *)
Definition callable_contained (f : callable) : bool :=
  raises_only is_Exception (signature f)
  && raises_only is_Exception (getdoc f).

(** Introspection of a method that [get_class_metadata] gets through. *)
Definition method_contained (nf : string * callable) : bool :=
  is_skipped_dunder (fst nf)
  || (raises_only is_TypeError_or_ValueError (signature (snd nf))
      && returns (getdoc (snd nf))).

Definition class_contained (c : class) : bool :=
  callable_contained (callable_of_class c)
  && returns (cls_getdoc c)
  && forallb method_contained (cls_functions c).

Definition obj_contained (o : obj) : bool :=
  match o with
  | NotCallable => true
  | CallableObj f => callable_contained f
  | ClassObj c => class_contained c
  end.

Definition module_contained (m : module) : bool :=
  forallb (fun no => obj_contained (snd no)) (mod_members m).

(** An import that the loop over the package walk gets through: it
    raises [SystemExit] or an exception derived from [Exception], or it
    loads a module whose members can be introspected. *)
Definition import_contained (r : res module) : bool :=
  match r with
  | Ret m => module_contained m
  | Raise e => is_SystemExit e || is_Exception e
  end.

(** The key under which [visit] files a class record. *)
Definition class_record_key (r : ClassRecord) : string :=
  class_key (or_empty (cr_module r)) (cr_name r).

(** Keys are distinct, and every record sits under its own key. *)
Record dict_invariant (st : state) : Prop := {
  inv_function_keys : NoDup (dict_keys (st_functions st));
  inv_class_keys : NoDup (dict_keys (st_classes st));
  inv_function_names :
    Forall (fun kv => fr_name (snd kv) = fst kv) (st_functions st);
  inv_class_names :
    Forall (fun kv => class_record_key (snd kv) = fst kv) (st_classes st)
}.

(** [l'] is [l] with more entries after it. *)
Definition extends {A} (l l' : list A) : Prop := exists more, l' = l ++ more.

(** The state with one more function, or class, record at the end. *)
Definition with_function (st : state) (k : string) (r : FunctionRecord)
  : state :=
  {| st_functions := st_functions st ++ [(k, r)];
     st_classes := st_classes st;
     st_trace := st_trace st |}.

Definition with_class (st : state) (k : string) (r : ClassRecord) : state :=
  {| st_functions := st_functions st;
     st_classes := st_classes st ++ [(k, r)];
     st_trace := st_trace st |}.

Definition with_event (st : state) (ev : event) : state :=
  {| st_functions := st_functions st;
     st_classes := st_classes st;
     st_trace := st_trace st ++ [ev] |}.

(** The state in which [analyze_library] starts the traversal. *)
Definition traversal_start (lib_name : string) (st : state) : state :=
  {| st_functions := []; st_classes := [];
     st_trace := st_trace st ++ [EvImport lib_name] |}.

(** A member [o] files the function record [r] under [k] in state [st]. *)
Definition files_function (lib_name : string) (allow : list string)
    (o : obj) (st : state) (k : string) (r : FunctionRecord) : Prop :=
  exists f,
    as_callable o = Some f
    /\ startswith (or_empty (dunder_module f)) lib_name = true
    /\ _want allow (name_or_repr f) = true
    /\ k = name_or_repr f
    /\ dict_contains k (st_functions st) = false
    /\ get_function_metadata f (or_empty (dunder_module f)) = Ret r.

(** A member [o] files the class record [r] under [k] in state [st]. *)
Definition files_class (lib_name : string) (allow : list string)
    (o : obj) (st : state) (k : string) (r : ClassRecord) : Prop :=
  exists c,
    as_class o = Some c
    /\ startswith (or_empty (cls_module c)) lib_name = true
    /\ _want allow (cls_name c) = true
    /\ k = class_key (or_empty (cls_module c)) (cls_name c)
    /\ dict_contains k (st_classes st) = false
    /\ get_class_metadata c = Ret r.

(** [st] keeps the records of [st0] where they are, and is well formed. *)
Definition kept_from (st0 st : state) : Prop :=
  dict_invariant st
  /\ extends (st_functions st0) (st_functions st)
  /\ extends (st_classes st0) (st_classes st).

(** The (module, name) pair of a class record. *)
Definition class_record_id (r : ClassRecord) : option string * string :=
  (cr_module r, cr_name r).

(** The events of a visit of [root]. *)
Definition is_members_event (root : module) (ev : event) : Prop :=
  exists predicate, ev = EvGetMembers (mod_name root) predicate.

(** What the targeted lookup of [names] in [root] may have reached from
    the trace [before]: records of members of [root] whose names are in
    [names], and no event but the listing of the members of [root]. *)
Record targeted_lookup (root : module) (names : list string)
    (before : list event) (st : state) : Prop := {
  tl_functions :
    Forall (fun kv =>
              In (fst kv) names
              /\ exists f o,
                   In o (map snd (mod_members root))
                   /\ as_callable o = Some f
                   /\ fst kv = name_or_repr f
                   /\ get_function_metadata f (or_empty (dunder_module f))
                      = Ret (snd kv))
      (st_functions st);
  tl_classes :
    Forall (fun kv =>
              exists c,
                In (ClassObj c) (map snd (mod_members root))
                /\ In (cls_name c) names
                /\ get_class_metadata c = Ret (snd kv))
      (st_classes st);
  tl_trace :
    exists events,
      st_trace st = before ++ events
      /\ Forall (is_members_event root) events
}.

(* ================================================================== *)
(** * The order of discovery *)
(* ================================================================== *)

(** The elements of a list in the order of their first occurrence. *)
Fixpoint first_occurrences (l : list string) : list string :=
  match l with
  | [] => []
  | x :: rest =>
      x :: filter (fun y => negb (String.eqb x y)) (first_occurrences rest)
  end.

(** The key under which a member asks to be filed as a function, if it
    passes the filters of [visit]. *)
Definition function_candidate (lib_name : string) (allow : list string)
    (o : obj) : list string :=
  match as_callable o with
  | Some f =>
      if startswith (or_empty (dunder_module f)) lib_name
         && _want allow (name_or_repr f)
      then [name_or_repr f] else []
  | None => []
  end.

(** The key under which a member asks to be filed as a class. *)
Definition class_candidate (lib_name : string) (allow : list string)
    (o : obj) : list string :=
  match as_class o with
  | Some c =>
      if startswith (or_empty (cls_module c)) lib_name
         && _want allow (cls_name c)
      then [class_key (or_empty (cls_module c)) (cls_name c)] else []
  | None => []
  end.

Section Discovery.

Variable import_module : string -> res module.
Variable walk_packages : list string -> string -> list string * option exn.
Variable allow : list string.

(** Which of the two loops of [visit] is followed. *)
Variable candidate : obj -> list string.
Variable predicate : obj -> bool.

(** The keys a visit of [m] meets, in order. *)
Definition module_candidates (m : module) : list string :=
  flat_map candidate (map snd (getmembers m predicate)).

(** The keys the loop over the package walk meets for one name. *)
Definition submodule_candidates (subname : string) : list string :=
  if endswith_any subname SKIP_PATTERNS then []
  else match import_module subname with
       | Ret m => module_candidates m
       | Raise _ => []
       end.

(** The keys the whole traversal meets, in order. *)
Definition traversal_candidates (root : module) : list string :=
  module_candidates root
  ++ match is_nil allow, mod_path root with
     | true, Some path =>
         flat_map submodule_candidates
           (fst (walk_packages path (mod_name root ++ ".")%string))
     | _, _ => []
     end.

End Discovery.

(** [keys], then the new keys of [candidates], each when first met. *)
Definition merge_keys (keys candidates : list string) : list string :=
  fold_left (fun acc k => if str_in k acc then acc else acc ++ [k])
    candidates keys.

(* ================================================================== *)
(** * Sample objects, modules and interpreters *)
(* ================================================================== *)

Definition nl : string := String newline EmptyString.

Definition plain (name : string) (kind : ParameterKind) : Param :=
  {| p_name := name; p_default := None; p_kind := kind |}.

Definition defaulted (name value : string) : Param :=
  {| p_name := name; p_default := Some value;
     p_kind := POSITIONAL_OR_KEYWORD |}.

(** The parameters [(a, b=1, *args)]. *)
Definition params_a_b_args : list Param :=
  [plain "a" POSITIONAL_OR_KEYWORD; defaulted "b" "1";
   plain "args" VAR_POSITIONAL].

(** A callable of module [module_name] called [name]. *)
Definition make_callable (module_name name : string)
    (sig : res (list Param)) (doc : option string)
    (text_sig : option string) : callable :=
  {| dunder_module := Some module_name;
     dunder_name := Some name;
     repr := ("<function " ++ name ++ ">")%string;
     signature := sig;
     getdoc := Ret doc;
     text_signature := text_sig |}.

(** [def f(a, b=1, *args): ...] *)
Definition f_structured : callable :=
  make_callable "lib" "f" (Ret params_a_b_args) None None.

(** A native callable with [__text_signature__ = "(x, y=2)"]. *)
Definition f_textual : callable :=
  make_callable "lib" "g" (Raise ValueError) None (Some "(x, y=2)").

(** A native callable documented as [foo(p, q=3)]. *)
Definition f_documented : callable :=
  make_callable "lib" "foo" (Raise ValueError)
    (Some ("foo(p, q=3)" ++ nl ++ "Does foo.")%string) None.

(** A native callable documented as [foo()]. *)
Definition f_documented_noargs : callable :=
  make_callable "lib" "foo" (Raise ValueError)
    (Some ("foo()" ++ nl ++ "Does foo.")%string) None.

(** [def bar(): "bar(u, v=0)"] *)
Definition f_zero_params_documented : callable :=
  make_callable "lib" "bar" (Ret []) (Some "bar(u, v=0)") None.

(** A zero-parameter callable documented as [bar(u, v=0)] that also has
    [__text_signature__ = "(w)"]. *)
Definition f_zero_params_both : callable :=
  make_callable "lib" "bar" (Ret []) (Some "bar(u, v=0)") (Some "(w)").

(** [lib.foo], a function of the root module. *)
Definition fn_foo : callable :=
  make_callable "lib" "foo"
    (Ret [plain "x" POSITIONAL_OR_KEYWORD]) (Some "Root foo.") None.

(** [lib.sub.foo], a second function called [foo]. *)
Definition fn_foo_sub : callable :=
  make_callable "lib.sub" "foo" (Ret []) (Some "Sub foo.") None.

(** [lib.sub.g] *)
Definition fn_g : callable :=
  make_callable "lib.sub" "g"
    (Ret [plain "y" POSITIONAL_OR_KEYWORD]) None None.

(** [os.path.join], re-exported by [lib]. *)
Definition fn_join : callable :=
  make_callable "posixpath" "join"
    (Ret [plain "a" POSITIONAL_OR_KEYWORD; plain "p" VAR_POSITIONAL])
    None None.

(** [class Foo: def __init__(self, n=0): ...; def __repr__(self): ...] *)
Definition cls_Foo : class :=
  {| cls_name := "Foo";
     cls_module := Some "lib";
     cls_repr := "<class 'lib.Foo'>";
     cls_signature := Ret [defaulted "n" "0"];
     cls_getdoc := Ret (Some "A Foo.");
     cls_text_signature := None;
     cls_functions :=
       [("__init__",
         make_callable "lib" "__init__"
           (Ret [plain "self" POSITIONAL_OR_KEYWORD; defaulted "n" "0"])
           None None);
        ("__repr__",
         make_callable "lib" "__repr__"
           (Ret [plain "self" POSITIONAL_OR_KEYWORD]) None None)] |}.

Definition root_module : module :=
  {| mod_name := "lib";
     mod_path := Some ["/site-packages/lib"];
     mod_members :=
       [("Foo", ClassObj cls_Foo);
        ("foo", CallableObj fn_foo);
        ("join", CallableObj fn_join);
        ("version", NotCallable)] |}.

Definition sub_module : module :=
  {| mod_name := "lib.sub";
     mod_path := None;
     mod_members :=
       [("foo", CallableObj fn_foo_sub); ("g", CallableObj fn_g)] |}.

(** An installation where [lib] is a package with the submodules
    [lib.sub], [lib.cli] (which calls [sys.exit] when imported),
    [lib.f2py] and [lib.missing] (which fails to import). *)
Definition import_lib (name : string) : res module :=
  if String.eqb name "lib" then Ret root_module
  else if String.eqb name "lib.sub" then Ret sub_module
  else if String.eqb name "lib.cli" then Raise SystemExit
  else Raise ImportError.

Definition walk_lib (path : list string) (prefix : string)
  : list string * option exn :=
  (["lib.cli"; "lib.f2py"; "lib.missing"; "lib.sub"], None).

(** The same installation, where importing [lib.sub] is interrupted. *)
Definition import_interrupted (name : string) : res module :=
  if String.eqb name "lib.sub" then Raise KeyboardInterrupt
  else import_lib name.

(** An installation without [lib]. *)
Definition import_nothing (name : string) : res module := Raise ImportError.

(** An installation where importing [lib] itself is interrupted. *)
Definition import_root_interrupted (name : string) : res module :=
  if String.eqb name "lib" then Raise KeyboardInterrupt
  else import_lib name.

(** [class Foo] of [lib.a] and [class Foo] of [lib.b]. *)
Definition cls_Foo_of (module_name : string) : class :=
  {| cls_name := "Foo";
     cls_module := Some module_name;
     cls_repr := ("<class '" ++ module_name ++ ".Foo'>")%string;
     cls_signature := Ret [];
     cls_getdoc := Ret None;
     cls_text_signature := None;
     cls_functions := [] |}.

(** A module that holds both, as after
    [from lib.a import Foo as FooA] and [from lib.b import Foo as FooB]. *)
Definition module_two_Foo : module :=
  {| mod_name := "lib";
     mod_path := None;
     mod_members :=
       [("FooA", ClassObj (cls_Foo_of "lib.a"));
        ("FooB", ClassObj (cls_Foo_of "lib.b"))] |}.

(** What [pkgutil.iter_modules] lists for the installation of
    [import_lib]: three modules, and the package [lib.f2py] with one
    module of its own. *)
Definition iter_lib (path : list string) (prefix : string)
  : list ModuleInfo :=
  [module_info "lib.cli" false [];
   module_info "lib.f2py" true [module_info "lib.f2py.rules" false []];
   module_info "lib.missing" false [];
   module_info "lib.sub" false []].

(** The same installation, where [lib.cli], which calls [sys.exit] when
    imported, is a package. *)
Definition iter_lib_cli_package (path : list string) (prefix : string)
  : list ModuleInfo :=
  [module_info "lib.cli" true [module_info "lib.cli.main" false []];
   module_info "lib.sub" false []].

(* ================================================================== *)
(** * Further conditions, relations and sample objects *)
(* ================================================================== *)

(** [def h(a, b=1, *args): ...] for which [inspect.getdoc] raises. *)
Definition f_doc_fails : callable :=
  {| dunder_module := Some "lib";
     dunder_name := Some "h";
     repr := "<function h>";
     signature := Ret params_a_b_args;
     getdoc := Raise AttributeError;
     text_signature := None |}.

(** A native callable that shows nothing: no signature, no textual
    signature, a documentation that does not start with a call. *)
Definition f_opaque : callable :=
  make_callable "lib" "opaque" (Raise ValueError)
    (Some "Does something.") None.

(** The function members of a class that [get_class_metadata] keeps. *)
Definition kept_methods (members : list (string * callable))
  : list (string * callable) :=
  filter (fun nf => negb (is_skipped_dunder (fst nf))) members.

(** The method record [mr] is the one of the member [nf]: its name, the
    outcome of the structured step alone, and its documentation. *)
Definition is_method_record (nf : string * callable) (mr : MethodRecord)
  : Prop :=
  mr_name mr = fst nf
  /\ _parse_sig (snd nf) = Ret (mr_args mr, mr_optionalCount mr)
  /\ exists d, getdoc (snd nf) = Ret d /\ mr_doc mr = or_empty d.

(** A class whose method [run] has a signature that cannot be read:
    [inspect.signature] raises [AttributeError]. *)
Definition cls_broken_method : class :=
  {| cls_name := "Broken";
     cls_module := Some "lib";
     cls_repr := "<class 'lib.Broken'>";
     cls_signature := Ret [];
     cls_getdoc := Ret None;
     cls_text_signature := None;
     cls_functions :=
       [("run", make_callable "lib" "run" (Raise AttributeError) None None)]
  |}.

(** A callable whose introspection is interrupted. *)
Definition f_interrupting : callable :=
  make_callable "lib" "slow" (Raise KeyboardInterrupt) None None.

(** The function record passed the filters of [visit]: its module path
    starts with the library name and its name is wanted. *)
Definition function_record_passes (lib_name : string) (allow : list string)
    (r : FunctionRecord) : Prop :=
  (exists rest, fr_module r = (lib_name ++ rest)%string)
  /\ _want allow (fr_name r) = true.

Definition class_record_passes (lib_name : string) (allow : list string)
    (r : ClassRecord) : Prop :=
  (exists rest, or_empty (cr_module r) = (lib_name ++ rest)%string)
  /\ _want allow (cr_name r) = true.

(** The names the loop over the package walk goes through: none when an
    allow-list is given or the root is not a package. *)
Definition walked_names
    (walk_packages : list string -> string -> list string * option exn)
    (allow : list string) (root : module) : list string :=
  match is_nil allow, mod_path root with
  | true, Some path =>
      fst (walk_packages path (mod_name root ++ ".")%string)
  | _, _ => []
  end.

(** The calls the code of [analyze_library] may make once the root is
    loaded: [safe_import]'s import of a walked name that matches no skip
    pattern, the listing of the members of the root or of a walked
    module that loaded, the call of the package walk on the root's own
    path; nothing is printed. *)
Definition traversal_event (import_module : string -> res module)
    (walk_packages : list string -> string -> list string * option exn)
    (allow : list string) (root : module) (ev : event) : Prop :=
  match ev with
  | EvImport name =>
      In name (walked_names walk_packages allow root)
      /\ endswith_any name SKIP_PATTERNS = false
  | EvGetMembers module_name _ =>
      module_name = mod_name root
      \/ exists subname m,
           In subname (walked_names walk_packages allow root)
           /\ endswith_any subname SKIP_PATTERNS = false
           /\ import_module subname = Ret m
           /\ module_name = mod_name m
  | EvWalkPackages path prefix =>
      is_nil allow = true
      /\ mod_path root = Some path
      /\ prefix = (mod_name root ++ ".")%string
  | EvPrint _ => False
  end.

(** The trace of [st] is [before] followed by events that satisfy [T]. *)
Definition trace_extends (T : event -> Prop) (before : list event)
    (st : state) : Prop :=
  exists events, st_trace st = before ++ events /\ Forall T events.

(** An installation where the package walk ends with [SystemExit]: the
    walk itself imports the package [lib.cli], which exits. *)
Definition walk_exiting (path : list string) (prefix : string)
  : list string * option exn :=
  (["lib.cli"], Some SystemExit).

(** A parameter name as the fallbacks give it: no comma, no ["="], and
    no white space at either end. *)
Definition clean_name (name : string) : Prop :=
  char_in comma name = false
  /\ char_in equals name = false
  /\ strip name = name.

(** All the characters of [s] satisfy [p]. *)
Fixpoint all_chars (p : ascii -> bool) (s : string) : bool :=
  match s with
  | EmptyString => true
  | String c r => p c && all_chars p r
  end.

(** The text starts with a call [name(group)]: white space, an
    identifier, ["("], a group without [")"] or newline, [")"]. *)
Definition starts_with_call (doc group : string) : Prop :=
  exists ws c tail rest,
    doc = (ws ++ String c (tail ++ String "(" (group ++ String ")" rest)))
          %string
    /\ all_chars isspace ws = true
    /\ is_ident_start c = true
    /\ all_chars is_ident_char tail = true
    /\ char_in ")" group = false
    /\ char_in newline group = false.

(** Every member of [m] that passes the filters of [visit] has its key in
    the dictionaries of [st]. *)
Definition all_filed (lib_name : string) (allow : list string) (m : module)
    (st : state) : Prop :=
  (forall o f, In o (map snd (getmembers m _is_callable)) ->
     as_callable o = Some f ->
     startswith (or_empty (dunder_module f)) lib_name = true ->
     _want allow (name_or_repr f) = true ->
     dict_contains (name_or_repr f) (st_functions st) = true)
  /\ (forall o c, In o (map snd (getmembers m isclass)) ->
        as_class o = Some c ->
        startswith (or_empty (cls_module c)) lib_name = true ->
        _want allow (cls_name c) = true ->
        dict_contains (class_key (or_empty (cls_module c)) (cls_name c))
          (st_classes st) = true).

(** The entries of a dictionary whose key is in [names]. *)
Definition entries_named {V} (names : list string) (d : dict V) : dict V :=
  filter (fun kv => str_in (fst kv) names) d.

(* ================================================================== *)
(** * Facts about the string operations *)
(* ================================================================== *)

Lemma split_not_nil (sep : ascii) (s : string) : split sep s <> [].
Proof.
  destruct s as [|c r]; simpl; [discriminate|].
  destruct (Ascii.eqb c sep); [discriminate|].
  destruct (split sep r); discriminate.
Qed.

Lemma char_in_lstrip (p : ascii -> bool) (c : ascii) (s : string) :
  p c = false -> char_in c (lstrip_by p s) = char_in c s.
Proof.
  intros Hp. induction s as [|a r IH]; simpl; [reflexivity|].
  destruct (p a) eqn:Ha; simpl; [|reflexivity].
  rewrite IH. destruct (Ascii.eqb c a) eqn:E; [|reflexivity].
  apply Ascii.eqb_eq in E. congruence.
Qed.

Lemma char_in_rstrip (p : ascii -> bool) (c : ascii) (s : string) :
  p c = false -> char_in c (rstrip_by p s) = char_in c s.
Proof.
  intros Hp. induction s as [|a r IH]; simpl; [reflexivity|].
  destruct (is_empty (rstrip_by p r) && p a) eqn:E; simpl.
  - apply andb_prop in E. destruct E as [E1 E2].
    destruct (rstrip_by p r); [|discriminate]. simpl in IH. rewrite <- IH.
    destruct (Ascii.eqb c a) eqn:Eq; [|reflexivity].
    apply Ascii.eqb_eq in Eq. congruence.
  - now rewrite IH.
Qed.

Lemma contains_strip_by (p : ascii -> bool) (c : ascii) (s : string) :
  p c = false -> contains c (strip_by p s) = contains c s.
Proof.
  intros Hp. unfold contains, strip_by.
  now rewrite char_in_lstrip, char_in_rstrip.
Qed.

Lemma rstrip_empty_no_char (p : ascii -> bool) (c : ascii) (s : string) :
  p c = false -> rstrip_by p s = EmptyString -> char_in c s = false.
Proof.
  intros Hp H. rewrite <- (char_in_rstrip p c s Hp). now rewrite H.
Qed.

Lemma split_no_sep (sep : ascii) (s : string) :
  char_in sep s = false -> split sep s = [s].
Proof.
  induction s as [|a r IH]; simpl; [reflexivity|].
  intros H. apply orb_false_elim in H. destruct H as [H1 H2].
  rewrite Ascii.eqb_sym, H1. now rewrite (IH H2).
Qed.

Section StripAndSplit.

(** Stripping characters that are neither the separator nor the needle
    leaves, piece by piece, the presence of the needle unchanged. *)
Variable p : ascii -> bool.
Variables sep needle : ascii.
Hypothesis p_sep : p sep = false.
Hypothesis p_needle : p needle = false.

Lemma pieces_lstrip (s : string) :
  map (contains needle) (split sep (lstrip_by p s))
  = map (contains needle) (split sep s).
Proof.
  induction s as [|a r IH]; [reflexivity|].
  cbn [lstrip_by]. destruct (p a) eqn:Ha; [|reflexivity].
  rewrite IH. cbn [split].
  destruct (Ascii.eqb a sep) eqn:E.
  - apply Ascii.eqb_eq in E. congruence.
  - pose proof (split_not_nil sep r) as Hn.
    destruct (split sep r) as [|h t]; [contradiction|].
    cbn [map]. f_equal. unfold contains. cbn [char_in].
    destruct (Ascii.eqb needle a) eqn:E2; [|reflexivity].
    apply Ascii.eqb_eq in E2. congruence.
Qed.

Lemma pieces_rstrip (s : string) :
  map (contains needle) (split sep (rstrip_by p s))
  = map (contains needle) (split sep s).
Proof.
  induction s as [|a r IH]; [reflexivity|].
  cbn [rstrip_by].
  destruct (is_empty (rstrip_by p r) && p a) eqn:E.
  - apply andb_prop in E. destruct E as [E1 E2].
    assert (Hr : rstrip_by p r = EmptyString)
      by (destruct (rstrip_by p r); [reflexivity|discriminate]).
    assert (Hs : char_in sep (String a r) = false).
    { cbn [char_in]. rewrite (rstrip_empty_no_char p sep r p_sep Hr).
      destruct (Ascii.eqb sep a) eqn:Eq; [|reflexivity].
      apply Ascii.eqb_eq in Eq. congruence. }
    rewrite (split_no_sep sep (String a r) Hs). cbn [split map].
    f_equal. unfold contains. cbn [char_in].
    rewrite (rstrip_empty_no_char p needle r p_needle Hr).
    destruct (Ascii.eqb needle a) eqn:Eq; [|reflexivity].
    apply Ascii.eqb_eq in Eq. congruence.
  - cbn [split]. destruct (Ascii.eqb a sep); cbn [map].
    + now rewrite IH.
    + pose proof (split_not_nil sep r) as Hn.
      pose proof (split_not_nil sep (rstrip_by p r)) as Hn'.
      destruct (split sep r) as [|h t]; [contradiction|].
      destruct (split sep (rstrip_by p r)) as [|h' t']; [contradiction|].
      cbn [map] in *. injection IH as IH1 IH2.
      f_equal; [|assumption]. unfold contains in *. cbn [char_in].
      now rewrite IH1.
Qed.

Lemma pieces_strip (s : string) :
  map (contains needle) (split sep (strip_by p s))
  = map (contains needle) (split sep s).
Proof. unfold strip_by. now rewrite pieces_lstrip, pieces_rstrip. Qed.

End StripAndSplit.

Lemma count_as_map {A} (p : A -> bool) (xs : list A) :
  count p xs = count (fun b : bool => b) (map p xs).
Proof.
  unfold count. induction xs as [|x r IH]; simpl; [reflexivity|].
  destruct (p x); simpl; now rewrite IH.
Qed.

Lemma isspace_equals : isspace equals = false.
Proof. reflexivity. Qed.

Lemma isspace_comma : isspace comma = false.
Proof. reflexivity. Qed.

Lemma contains_equals_strip (s : string) :
  contains equals (strip s) = contains equals s.
Proof. apply contains_strip_by, isspace_equals. Qed.

Lemma is_empty_no_equals (s : string) :
  is_empty s = true -> contains equals s = false.
Proof. destruct s; [reflexivity|discriminate]. Qed.

Lemma is_separator_no_equals (s : string) :
  is_separator s = true -> contains equals s = false.
Proof.
  unfold is_separator, str_in. simpl. intros H.
  apply orb_prop in H. destruct H as [H|H].
  - apply String.eqb_eq in H. now subst.
  - rewrite orb_false_r in H. apply String.eqb_eq in H. now subst.
Qed.

(** The loop of [parse_text_signature] names the tokens that are not
    separators. *)
Lemma parse_text_signature_loop_spec (pieces : list string) :
  parse_text_signature_loop pieces
  = map spec_param_name
      (filter (fun t => negb (is_separator t))
         (filter (fun t => negb (is_empty t)) (map strip pieces))).
Proof.
  induction pieces as [|x r IH]; [reflexivity|].
  cbn [parse_text_signature_loop map filter].
  destruct (is_separator (strip x)) eqn:Hs; cbn [orb].
  - destruct (is_empty (strip x)); cbn [negb filter]; [assumption|].
    rewrite Hs. cbn [negb]. assumption.
  - destruct (is_empty (strip x)); cbn [negb filter]; [assumption|].
    rewrite Hs. cbn [negb map]. now rewrite IH.
Qed.

(** Counting ["="] over the kept tokens or over the raw pieces is the
    same: trimming keeps ["="], and a dropped token has none. *)
Lemma count_equals_tokens (pieces : list string) :
  count (contains equals)
    (filter (fun t => negb (is_separator t))
       (filter (fun t => negb (is_empty t)) (map strip pieces)))
  = count (contains equals) pieces.
Proof.
  unfold count. induction pieces as [|x r IH]; [reflexivity|].
  cbn [map filter]. rewrite <- (contains_equals_strip x).
  destruct (is_empty (strip x)) eqn:He; cbn [negb].
  - rewrite (is_empty_no_equals _ He). assumption.
  - cbn [filter]. destruct (is_separator (strip x)) eqn:Hs; cbn [negb].
    + rewrite (is_separator_no_equals _ Hs). assumption.
    + cbn [filter]. destruct (contains equals (strip x));
        cbn [List.length]; now rewrite IH.
Qed.

Lemma parens_not_comma : char_in comma "()" = false.
Proof. reflexivity. Qed.

Lemma parens_not_equals : char_in equals "()" = false.
Proof. reflexivity. Qed.

(** The optional count of the textual step, taken by the code over the
    pieces of [text_sig.strip("()")], is the count over the tokens. *)
Lemma text_optional_spec (text_sig : string) :
  count (contains equals) (split comma (strip_chars "()" text_sig))
  = spec_text_optional text_sig.
Proof.
  unfold spec_text_optional, spec_tokens. rewrite count_equals_tokens.
  rewrite (count_as_map _ (split comma (strip_chars "()" (strip text_sig)))).
  rewrite (count_as_map _ (split comma (strip_chars "()" text_sig))).
  unfold strip_chars, strip.
  rewrite !(pieces_strip (fun c => char_in c "()") comma equals
              parens_not_comma parens_not_equals).
  now rewrite (pieces_strip isspace comma equals isspace_comma isspace_equals).
Qed.

(* ================================================================== *)
(** * The extraction cascade *)
(* ================================================================== *)

Lemma count_optional_spec (ps : list Param) :
  count _count_optional ps = spec_optional_count ps.
Proof.
  unfold count, spec_optional_count. f_equal.
  apply filter_ext. intros p.
  unfold _count_optional, spec_carries_default, spec_is_variadic.
  destruct (p_default p); [reflexivity|]. now destruct (p_kind p).
Qed.

Lemma parse_sig_of_signature (f : callable) (ps : list Param) :
  signature f = Ret ps ->
  _parse_sig f = Ret (map p_name ps, spec_optional_count ps).
Proof.
  intros H. unfold _parse_sig. rewrite H. cbn.
  now rewrite count_optional_spec.
Qed.

(** C4.  When [inspect.signature] succeeds, [_parse_sig] returns the names
    of the parameters in order, with the number of parameters that carry
    a default value or are variable-positional or variable-keyword;
    [get_function_metadata] reports the same when the list is not empty
    and the documentation is read; the parameters [(a, b=1, *args)] give
    [["a"; "b"; "args"]] and 2. *)
Theorem structured_signature_args (f : callable) (ps : list Param)
    (Hsig : signature f = Ret ps) :
  _parse_sig f = Ret (map p_name ps, spec_optional_count ps)
  /\ (forall module_name d, ps <> [] -> getdoc f = Ret d ->
        exists r, get_function_metadata f module_name = Ret r
                  /\ fr_args r = map p_name ps
                  /\ fr_optionalCount r = spec_optional_count ps)
  /\ (ps = params_a_b_args -> _parse_sig f = Ret (["a"; "b"; "args"], 2)).
Proof.
  pose proof (parse_sig_of_signature f Hsig) as Hp.
  split; [exact Hp|]. split.
  - intros module_name d Hne Hd.
    unfold get_function_metadata, structured_step. rewrite Hp, Hd. cbn.
    destruct ps as [|p ps']; [contradiction|]. cbn.
    eexists. split; [reflexivity|]. cbn. split; reflexivity.
  - intros ->. rewrite Hp. reflexivity.
Qed.

Lemma structured_signature_args_witness :
  signature f_structured = Ret params_a_b_args
  /\ _parse_sig f_structured = Ret (["a"; "b"; "args"], 2).
Proof.
  split; [reflexivity|].
  exact (proj2 (proj2 (structured_signature_args f_structured eq_refl))
           eq_refl).
Defined.

(** C5.  For a callable whose structured step leaves the argument list
    empty and whose [__text_signature__] is a non-empty string,
    [get_function_metadata] strips the enclosing parentheses, splits on
    commas, drops the bare ["/"] and ["*"] tokens, names every remaining
    token by its part before ["="], and counts the tokens that contain
    ["="]; the textual signature ["(x, y=2)"] gives [["x"; "y"]] and 1. *)
Theorem textual_signature_fallback (f : callable) (module_name : string)
    (text_sig : string) (opt0 : nat) (doc : string)
    (Hstruct : structured_step f = Ret ([], opt0, doc))
    (Htext : text_signature f = Some text_sig)
    (Hne : text_sig <> EmptyString) :
  exists r, get_function_metadata f module_name = Ret r
    /\ fr_args r = spec_text_args text_sig
    /\ fr_optionalCount r = spec_text_optional text_sig
    /\ (text_sig = "(x, y=2)"%string ->
        fr_args r = ["x"; "y"] /\ fr_optionalCount r = 1).
Proof.
  unfold get_function_metadata. rewrite Hstruct. cbn.
  unfold signature_fallback. rewrite Htext.
  destruct text_sig as [|c rest]; [contradiction|].
  eexists. split; [reflexivity|]. cbn [fr_args fr_optionalCount].
  assert (Hargs : parse_text_signature (String c rest)
                  = spec_text_args (String c rest)).
  { unfold parse_text_signature. cbn [is_empty].
    now rewrite parse_text_signature_loop_spec. }
  split; [exact Hargs|]. split; [apply text_optional_spec|].
  intros E. rewrite Hargs, text_optional_spec, E. split; reflexivity.
Qed.

Lemma textual_signature_fallback_witness :
  exists r, get_function_metadata f_textual "lib" = Ret r
    /\ fr_args r = ["x"; "y"] /\ fr_optionalCount r = 1.
Proof.
  destruct (@textual_signature_fallback f_textual "lib" "(x, y=2)" 0 ""
              eq_refl eq_refl ltac:(discriminate))
    as [r [Hr [_ [_ Hx]]]].
  exists r. split; [exact Hr|]. exact (Hx eq_refl).
Defined.

(** ** The docstring step *)

Lemma first_line_split (doc : string) :
  doc = (first_line doc ++ after_first_line doc)%string.
Proof.
  induction doc as [|c r IH]; [reflexivity|].
  cbn [first_line after_first_line].
  destruct (Ascii.eqb c newline); [reflexivity|].
  cbn [String.append]. now f_equal.
Qed.

Lemma lstrip_by_app (p : ascii -> bool) (s rest : string) c r :
  lstrip_by p s = String c r ->
  lstrip_by p (s ++ rest) = String c (r ++ rest).
Proof.
  induction s as [|a s' IH]; cbn; [discriminate|].
  destruct (p a); [exact IH|].
  intros H. injection H as -> ->. reflexivity.
Qed.

Lemma lazy_group_app (s rest group : string) :
  lazy_group_until_rparen s = Some group ->
  lazy_group_until_rparen (s ++ rest) = Some group.
Proof.
  revert group.
  induction s as [|a s' IH];
    cbn [lazy_group_until_rparen String.append]; [discriminate|].
  intros group. destruct (Ascii.eqb a ")"); [trivial|].
  destruct (Ascii.eqb a newline); [discriminate|].
  destruct (lazy_group_until_rparen s') as [g|]; [|discriminate].
  cbn. intros H. now rewrite (IH g eq_refl).
Qed.

(** A match of the pattern on a prefix of the text is the match on the
    whole text: the pattern is anchored at the start only. *)
Lemma re_match_signature_app (line rest group : string) :
  re_match_signature line = Some group ->
  re_match_signature (line ++ rest) = Some group.
Proof.
  unfold re_match_signature.
  destruct (lstrip_by isspace line) as [|c r] eqn:E1; [discriminate|].
  rewrite (lstrip_by_app isspace line rest E1).
  destruct (is_ident_start c); [|discriminate].
  destruct (lstrip_by is_ident_char r) as [|q r'] eqn:E2; [discriminate|].
  rewrite (lstrip_by_app is_ident_char r rest E2).
  destruct (Ascii.eqb q "("); [|discriminate].
  apply lazy_group_app.
Qed.

Lemma re_match_first_line (doc group : string) :
  re_match_signature (first_line doc) = Some group ->
  re_match_signature doc = Some group /\ truthy doc = true.
Proof.
  intros H. split.
  - rewrite (first_line_split doc). now apply re_match_signature_app.
  - destruct doc; [discriminate H|reflexivity].
Qed.

(** The docstring step, for a callable without structured arguments and
    without textual signature whose first documentation line matches. *)
Lemma docstring_step (f : callable) (module_name : string)
    (opt0 : nat) (doc group : string) :
  structured_step f = Ret ([], opt0, doc) ->
  (text_signature f = None \/ text_signature f = Some EmptyString) ->
  re_match_signature (first_line doc) = Some group ->
  exists r, get_function_metadata f module_name = Ret r
    /\ fr_args r = doc_args (doc_pieces group)
    /\ fr_optionalCount r = count (contains equals) (doc_pieces group).
Proof.
  intros Hs Ht Hm. apply re_match_first_line in Hm. destruct Hm as [Hm Hd].
  unfold get_function_metadata. rewrite Hs. cbn.
  unfold signature_fallback.
  destruct Ht as [-> | ->]; rewrite Hd, Hm;
    (eexists; split; [reflexivity|]; cbn; split; reflexivity).
Qed.

(** The example of the specification for the docstring step. *)
Lemma docstring_step_example :
  exists r, get_function_metadata f_documented "lib" = Ret r
    /\ fr_args r = ["p"; "q"] /\ fr_optionalCount r = 1.
Proof. eexists. split; [reflexivity|]. split; reflexivity. Qed.

(** On the same pieces, the names of the docstring step are those of the
    loop of [parse_text_signature] when no trimmed piece is empty. *)
Lemma docstring_names_without_empty_piece (sig_part : string) :
  Forall (fun p => is_empty (strip p) = false) (split comma sig_part) ->
  doc_args (doc_pieces sig_part)
  = parse_text_signature_loop (split comma sig_part).
Proof.
  unfold doc_args, doc_pieces.
  induction (split comma sig_part) as [|p rest IH]; intros H;
    [reflexivity|].
  inversion H as [|? ? Hp Hrest]. subst.
  cbn [filter map parse_text_signature_loop]. rewrite Hp, orb_false_r.
  destruct (is_separator (strip p)); cbn [negb map]; rewrite (IH Hrest);
    reflexivity.
Qed.

(** C6.  On the documentation ["foo()"] the docstring step keeps the
    empty piece between the parentheses and reports one argument with the
    empty name; the textual-signature step, which drops empty pieces,
    reports no argument for the same argument text, with or without its
    parentheses. *)
Theorem docstring_step_keeps_empty_piece :
  (exists r, get_function_metadata f_documented_noargs "lib" = Ret r
     /\ fr_args r = [EmptyString] /\ fr_optionalCount r = 0)
  /\ re_match_signature "foo()" = Some EmptyString
  /\ doc_pieces EmptyString = [EmptyString]
  /\ parse_text_signature "()" = []
  /\ parse_text_signature EmptyString = []
  /\ spec_text_args "()" = [].
Proof.
  split; [eexists; split; [reflexivity|]; split; reflexivity|].
  repeat split; reflexivity.
Qed.

(** C10.  For a callable whose structured signature has no parameter,
    whose [__text_signature__] is missing or empty, and whose first
    documentation line matches [name(args)], [get_function_metadata]
    reports the arguments and the optional count derived from the
    documentation, not the empty structured result. *)
Theorem zero_parameters_fall_back_to_doc (f : callable)
    (module_name doc group : string)
    (Hsig : signature f = Ret [])
    (Hdoc : getdoc f = Ret (Some doc))
    (Htext : text_signature f = None \/ text_signature f = Some EmptyString)
    (Hline : re_match_signature (first_line doc) = Some group) :
  _parse_sig f = Ret ([], 0)
  /\ exists r, get_function_metadata f module_name = Ret r
       /\ fr_args r = doc_args (doc_pieces group)
       /\ fr_optionalCount r = count (contains equals) (doc_pieces group).
Proof.
  assert (Hp : _parse_sig f = Ret ([], 0))
    by (unfold _parse_sig; now rewrite Hsig).
  split; [exact Hp|].
  apply (@docstring_step f module_name 0 doc group); try assumption.
  unfold structured_step. now rewrite Hp, Hdoc.
Qed.

Lemma zero_parameters_fall_back_to_doc_witness :
  exists r, get_function_metadata f_zero_params_documented "lib" = Ret r
    /\ fr_args r = ["u"; "v"] /\ fr_optionalCount r = 1.
Proof.
  exact (proj2 (@zero_parameters_fall_back_to_doc f_zero_params_documented
                  "lib" "bar(u, v=0)" "u, v=0" eq_refl eq_refl
                  (or_introl eq_refl) eq_refl)).
Defined.

(** C10 as stated fails when the callable also has a textual signature:
    the textual step comes first and its result is reported. *)
Lemma zero_parameters_textual_signature_first :
  ~ (forall (f : callable) (module_name doc group : string),
       signature f = Ret [] ->
       getdoc f = Ret (Some doc) ->
       re_match_signature (first_line doc) = Some group ->
       exists r, get_function_metadata f module_name = Ret r
         /\ fr_args r = doc_args (doc_pieces group)
         /\ fr_optionalCount r = count (contains equals) (doc_pieces group)).
Proof.
  intros H.
  destruct (H f_zero_params_both "lib" "bar(u, v=0)"%string
              "u, v=0"%string eq_refl eq_refl eq_refl) as [r [Hr [Ha _]]].
  cbv in Hr. injection Hr as <-. cbv in Ha. discriminate Ha.
Qed.

(* ================================================================== *)
(** * Dictionaries *)
(* ================================================================== *)

Lemma dict_contains_In {V} (k : string) (d : dict V) :
  dict_contains k d = true <-> In k (dict_keys d).
Proof.
  unfold dict_contains, dict_keys. rewrite existsb_exists, in_map_iff.
  split.
  - intros [kv [Hin Heq]]. apply String.eqb_eq in Heq. now exists kv.
  - intros [kv [Heq Hin]]. exists kv. split; [assumption|].
    now apply String.eqb_eq.
Qed.

Lemma dict_contains_not_In {V} (k : string) (d : dict V) :
  dict_contains k d = false <-> ~ In k (dict_keys d).
Proof.
  rewrite <- dict_contains_In. destruct (dict_contains k d); split;
    congruence.
Qed.

(** Setting a key that is not in the dictionary appends the entry. *)
Lemma dict_setitem_fresh {V} (k : string) (v : V) (d : dict V) :
  dict_contains k d = false -> dict_setitem k v d = d ++ [(k, v)].
Proof.
  induction d as [|[k' v'] rest IH]; cbn; [reflexivity|].
  intros H. apply orb_false_elim in H. destruct H as [H1 H2].
  rewrite H1. now rewrite (IH H2).
Qed.

Lemma dict_contains_app {V} (k : string) (d d' : dict V) :
  dict_contains k (d ++ d') = dict_contains k d || dict_contains k d'.
Proof. unfold dict_contains. apply existsb_app. Qed.

Lemma NoDup_snoc {A} (l : list A) (x : A) :
  NoDup l -> ~ In x l -> NoDup (l ++ [x]).
Proof.
  intros Hl Hx. induction Hl as [|y l Hy Hl IH]; cbn.
  - constructor; [intros []|constructor].
  - constructor.
    + rewrite in_app_iff. intros [H|[H|[]]]; [contradiction|].
      subst. apply Hx. now left.
    + apply IH. intros H. apply Hx. now right.
Qed.

Lemma extends_refl {A} (l : list A) : extends l l.
Proof. exists []. now rewrite app_nil_r. Qed.

Lemma extends_trans {A} (l1 l2 l3 : list A) :
  extends l1 l2 -> extends l2 l3 -> extends l1 l3.
Proof.
  intros [m1 ->] [m2 ->]. exists (m1 ++ m2). now rewrite app_assoc.
Qed.

Lemma extends_snoc {A} (l : list A) (x : A) : extends l (l ++ [x]).
Proof. now exists [x]. Qed.

(* ================================================================== *)
(** * First occurrences *)
(* ================================================================== *)

Lemma filter_comm {A} (p q : A -> bool) (l : list A) :
  filter p (filter q l) = filter q (filter p l).
Proof.
  induction l as [|x r IH]; cbn; [reflexivity|].
  destruct (p x) eqn:Hp, (q x) eqn:Hq; cbn; rewrite ?Hp, ?Hq, IH;
    reflexivity.
Qed.

Lemma filter_absorb {A} (p q : A -> bool) (l : list A) :
  (forall z, p z = true -> q z = true) ->
  filter p (filter q l) = filter p l.
Proof.
  intros H. induction l as [|x r IH]; cbn; [reflexivity|].
  destruct (q x) eqn:Hq; cbn.
  - now rewrite IH.
  - destruct (p x) eqn:Hp; [|assumption].
    rewrite (H x Hp) in Hq. discriminate.
Qed.

Lemma filter_andb {A} (p q : A -> bool) (l : list A) :
  filter (fun x => p x && q x) l = filter q (filter p l).
Proof.
  induction l as [|x r IH]; cbn; [reflexivity|].
  destruct (p x); cbn; [|assumption]. destruct (q x); now rewrite IH.
Qed.

Lemma first_occurrences_filter (p : string -> bool) (l : list string) :
  first_occurrences (filter p l) = filter p (first_occurrences l).
Proof.
  induction l as [|y r IH]; cbn [filter first_occurrences]; [reflexivity|].
  destruct (p y) eqn:Hp; cbn [filter first_occurrences]; rewrite ?Hp.
  - f_equal. rewrite IH. apply filter_comm.
  - rewrite IH. symmetry. apply filter_absorb.
    intros z Hz. destruct (String.eqb y z) eqn:E; [|reflexivity].
    apply String.eqb_eq in E. congruence.
Qed.

Lemma str_in_app (k : string) (l l' : list string) :
  str_in k (l ++ l') = str_in k l || str_in k l'.
Proof. unfold str_in. apply existsb_app. Qed.

(** Merging candidates into the keys appends their first occurrences,
    those that are new. *)
Lemma merge_keys_spec (candidates keys : list string) :
  merge_keys keys candidates
  = keys
    ++ first_occurrences (filter (fun k => negb (str_in k keys)) candidates).
Proof.
  unfold merge_keys. revert keys.
  induction candidates as [|x r IH]; intros keys; cbn [fold_left filter].
  - now rewrite app_nil_r.
  - destruct (str_in x keys) eqn:Hx; cbn [negb]; [apply IH|].
    rewrite IH, <- app_assoc. cbn [app first_occurrences]. do 2 f_equal.
    rewrite <- first_occurrences_filter, <- filter_andb. f_equal.
    apply filter_ext. intros k. rewrite str_in_app. cbn.
    rewrite orb_false_r, negb_orb, (String.eqb_sym k x). reflexivity.
Qed.

Lemma merge_keys_nil (candidates : list string) :
  merge_keys [] candidates = first_occurrences candidates.
Proof.
  rewrite merge_keys_spec. cbn [app]. f_equal.
  induction candidates as [|x r IH]; [reflexivity|].
  cbn [filter str_in existsb negb]. now f_equal.
Qed.

Lemma merge_keys_app (keys a b : list string) :
  merge_keys (merge_keys keys a) b = merge_keys keys (a ++ b).
Proof. unfold merge_keys. now rewrite fold_left_app. Qed.

(* ================================================================== *)
(** * The loops of the traversal *)
(* ================================================================== *)

Lemma for_each_preserves {A} (I : state -> Prop) (xs : list A)
    (body : A -> M unit) :
  (forall x st, In x xs -> I st -> I (snd (body x st))) ->
  forall st, I st -> I (snd (for_each xs body st)).
Proof.
  induction xs as [|x rest IH]; intros Hbody st Hst; [exact Hst|].
  cbn [for_each]. unfold mbind.
  pose proof (Hbody x st (or_introl eq_refl) Hst) as Hx.
  destruct (body x st) as [[[]|e] st1]; cbn in Hx |- *; [|exact Hx].
  apply IH; [|exact Hx].
  intros y st' Hy. apply Hbody. now right.
Qed.

Lemma for_each_returns {A} (I : state -> Prop) (xs : list A)
    (body : A -> M unit) :
  (forall x st, In x xs -> I st ->
     fst (body x st) = Ret tt /\ I (snd (body x st))) ->
  forall st, I st ->
    fst (for_each xs body st) = Ret tt /\ I (snd (for_each xs body st)).
Proof.
  induction xs as [|x rest IH]; intros Hbody st Hst; [now split|].
  cbn [for_each]. unfold mbind.
  destruct (Hbody x st (or_introl eq_refl) Hst) as [Hr Hx].
  destruct (body x st) as [[[]|e] st1]; cbn in Hr, Hx |- *;
    [|discriminate].
  apply IH; [|exact Hx].
  intros y st' Hy. apply Hbody. now right.
Qed.

Lemma mbind_preserves {A B} (I : state -> Prop) (c : M A) (k : A -> M B)
    (st : state) :
  I (snd (c st)) ->
  (forall a st', I st' -> I (snd (k a st'))) ->
  I (snd (mbind c k st)).
Proof.
  intros Hc Hk. unfold mbind.
  destruct (c st) as [[a|e] st1]; cbn in *; [now apply Hk|assumption].
Qed.

Lemma mbind_returns {A B} (c : M A) (k : A -> M B) (st st' : state)
    (b : B) :
  mbind c k st = (Ret b, st') ->
  exists a st1, c st = (Ret a, st1) /\ k a st1 = (Ret b, st').
Proof.
  unfold mbind. destruct (c st) as [[a|e] st1]; [|discriminate].
  intros H. now exists a, st1.
Qed.

(** When the loop returns, every body has run and returned. *)
Lemma for_each_reaches {A} (I : state -> Prop) (J : A -> state -> Prop)
    (xs : list A) (body : A -> M unit) :
  (forall x st, I st -> I (snd (body x st))) ->
  (forall x st, I st -> fst (body x st) = Ret tt -> J x (snd (body x st))) ->
  (forall x y st, J x st -> I st -> J x (snd (body y st))) ->
  forall st, I st -> fst (for_each xs body st) = Ret tt ->
  forall x, In x xs -> J x (snd (for_each xs body st)).
Proof.
  intros HI HJ Hkeep.
  induction xs as [|y rest IH]; intros st Hst Hret x Hx; [destruct Hx|].
  cbn [for_each] in *. unfold mbind in *.
  pose proof (HI y st Hst) as HI1. pose proof (HJ y st Hst) as HJ1.
  destruct (body y st) as [[[]|e] st1]; cbn in *; [|discriminate].
  destruct Hx as [->|Hx].
  - specialize (HJ1 eq_refl).
    apply (for_each_preserves (fun s => I s /\ J x s)); [|now split].
    intros z st' _ [Hi Hj]. split; [now apply HI|now apply Hkeep].
  - now apply IH.
Qed.

(** A loop whose turns merge candidates into a list of keys merges all
    the candidates, in order. *)
Lemma for_each_merge {A} (K : state -> list string)
    (cand : A -> list string) (xs : list A) (body : A -> M unit) :
  (forall x st st', body x st = (Ret tt, st') ->
     K st' = merge_keys (K st) (cand x)) ->
  forall st st', for_each xs body st = (Ret tt, st') ->
    K st' = merge_keys (K st) (flat_map cand xs).
Proof.
  intros Hbody. induction xs as [|x rest IH]; intros st st' H.
  - cbn in H. now injection H as <-.
  - cbn [for_each] in H. apply mbind_returns in H.
    destruct H as [[] [st1 [H1 H2]]].
    cbn [flat_map]. rewrite <- merge_keys_app, <- (Hbody _ _ _ H1).
    now apply IH.
Qed.

Lemma for_each_unchanged {A} {B} (K : state -> B) (xs : list A)
    (body : A -> M unit) :
  (forall x st, K (snd (body x st)) = K st) ->
  forall st, K (snd (for_each xs body st)) = K st.
Proof.
  intros Hbody st.
  apply (for_each_preserves (fun s => K s = K st)); [|reflexivity].
  intros x s _ Hs. now rewrite Hbody.
Qed.

Lemma dict_contains_str_in {V} (k : string) (d : dict V) :
  dict_contains k d = str_in k (dict_keys d).
Proof.
  unfold dict_contains, str_in, dict_keys.
  induction d as [|kv r IH]; cbn; [reflexivity|]. now rewrite IH.
Qed.

Lemma get_function_metadata_name (f : callable) (module_name : string) r :
  get_function_metadata f module_name = Ret r ->
  fr_name r = name_or_repr f /\ fr_module r = module_name.
Proof.
  unfold get_function_metadata.
  destruct (structured_step f) as [[[args opt] doc]|e]; cbn; [|discriminate].
  destruct (if is_nil args then signature_fallback f doc args opt
            else (args, opt)) as [args' opt'].
  intros H. injection H as <-. now split.
Qed.

Lemma get_class_metadata_name (c : class) r :
  get_class_metadata c = Ret r ->
  cr_name r = cls_name c /\ cr_module r = cls_module c.
Proof.
  unfold get_class_metadata.
  destruct (get_class_methods (cls_functions c)); cbn; [|discriminate].
  destruct (cls_getdoc c); cbn; [|discriminate].
  intros H. injection H as <-. now split.
Qed.

Lemma function_names_are_keys (st : state) :
  dict_invariant st ->
  map fr_name (dict_values (st_functions st)) = dict_keys (st_functions st).
Proof.
  intros [_ _ H _]. unfold dict_values, dict_keys. rewrite map_map.
  induction H as [|kv l Hkv Hl IH]; cbn; [reflexivity|]. now f_equal.
Qed.

Lemma class_record_keys_are_keys (st : state) :
  dict_invariant st ->
  map class_record_key (dict_values (st_classes st))
  = dict_keys (st_classes st).
Proof.
  intros [_ _ _ H]. unfold dict_values, dict_keys. rewrite map_map.
  induction H as [|kv l Hkv Hl IH]; cbn; [reflexivity|]. now f_equal.
Qed.

Lemma class_keys_of_ids (st : state) :
  dict_invariant st ->
  map (fun id => class_key (or_empty (fst id)) (snd id))
    (map class_record_id (dict_values (st_classes st)))
  = dict_keys (st_classes st).
Proof.
  intros [_ _ _ H]. unfold dict_values, dict_keys. rewrite !map_map.
  induction H as [|kv l Hkv Hl IH]; cbn; [reflexivity|]. now f_equal.
Qed.

(** In a well-formed state no two function records share a name and no
    two class records share a (module, name) pair. *)
Lemma distinct_records (st : state) :
  dict_invariant st ->
  NoDup (map fr_name (dict_values (st_functions st)))
  /\ NoDup (map class_record_id (dict_values (st_classes st))).
Proof.
  intros H. split.
  - rewrite (function_names_are_keys H). apply H.
  - apply (NoDup_map_inv (fun id => class_key (or_empty (fst id)) (snd id))).
    rewrite (class_keys_of_ids H). apply H.
Qed.

Lemma in_getmembers (m : module) (predicate : obj -> bool) (o : obj) :
  In o (map snd (getmembers m predicate))
  <-> In o (map snd (mod_members m)) /\ predicate o = true.
Proof.
  unfold getmembers. rewrite !in_map_iff. split.
  - intros [no [<- Hin]]. apply filter_In in Hin. destruct Hin as [Hin Hp].
    split; [now exists no|assumption].
  - intros [[no [<- Hin]] Hp]. exists no. split; [reflexivity|].
    apply filter_In. now split.
Qed.

Lemma safe_import_state (import_module : string -> res module)
    (name : string) (st : state) :
  safe_import import_module name st
  = (match import_module name with
     | Ret m => Ret (Some m)
     | Raise e =>
         if is_SystemExit e || is_Exception e then Ret None else Raise e
     end,
     with_event st (EvImport name)).
Proof.
  unfold safe_import, mbind, log, lift, mtry_except, with_event.
  destruct (import_module name) as [m|e]; [reflexivity|].
  now destruct e.
Qed.

Section Traversal.

Variable import_module : string -> res module.
Variable walk_packages : list string -> string -> list string * option exn.
Variable lib_name : string.
Variable allow : list string.

(** One turn of the first loop leaves the state as it is, or appends
    one record under a new key. *)
Lemma visit_function_cases (o : obj) (st : state) :
  snd (visit_function lib_name allow o st) = st
  \/ exists k r,
       files_function lib_name allow o st k r
       /\ visit_function lib_name allow o st
          = (Ret tt, with_function st k r).
Proof.
  unfold visit_function.
  destruct (as_callable o) as [f|] eqn:Ho; [|now left].
  destruct (startswith (or_empty (dunder_module f)) lib_name) eqn:Hm;
    cbn [negb]; [|now left].
  destruct (_want allow (name_or_repr f)) eqn:Hw; cbn [negb]; [|now left].
  destruct (dict_contains (name_or_repr f) (st_functions st)) eqn:Hk;
    [now left|].
  unfold mbind, lift, set_function.
  destruct (get_function_metadata f (or_empty (dunder_module f)))
    as [r|e] eqn:Hr; [|now left].
  right. exists (name_or_repr f), r. split.
  - exists f. repeat split; assumption.
  - unfold with_function. now rewrite (dict_setitem_fresh _ _ _ Hk).
Qed.

Lemma visit_class_cases (o : obj) (st : state) :
  snd (visit_class lib_name allow o st) = st
  \/ exists k r,
       files_class lib_name allow o st k r
       /\ visit_class lib_name allow o st = (Ret tt, with_class st k r).
Proof.
  unfold visit_class.
  destruct (as_class o) as [c|] eqn:Ho; [|now left].
  destruct (startswith (or_empty (cls_module c)) lib_name) eqn:Hm;
    cbn [negb]; [|now left].
  destruct (_want allow (cls_name c)) eqn:Hw; cbn [negb]; [|now left].
  destruct (dict_contains (class_key (or_empty (cls_module c)) (cls_name c))
              (st_classes st)) eqn:Hk; [now left|].
  unfold mbind, lift, set_class.
  destruct (get_class_metadata c) as [r|e] eqn:Hr; [|now left].
  right. exists (class_key (or_empty (cls_module c)) (cls_name c)), r.
  split.
  - exists c. repeat split; assumption.
  - unfold with_class. now rewrite (dict_setitem_fresh _ _ _ Hk).
Qed.

(** A property of states kept by every filing is kept by [visit]. *)
Section Preservation.

Variable I : state -> Prop.
Variable P : obj -> Prop.
Hypothesis I_function :
  forall o st k r, P o -> I st -> files_function lib_name allow o st k r ->
    I (with_function st k r).
Hypothesis I_class :
  forall o st k r, P o -> I st -> files_class lib_name allow o st k r ->
    I (with_class st k r).

Lemma visit_function_preserves (o : obj) (st : state) :
  P o -> I st -> I (snd (visit_function lib_name allow o st)).
Proof.
  intros Ho Hst.
  destruct (visit_function_cases o st) as [->|[k [r [Hf ->]]]];
    [assumption|].
  cbn. now apply (I_function Ho).
Qed.

Lemma visit_class_preserves (o : obj) (st : state) :
  P o -> I st -> I (snd (visit_class lib_name allow o st)).
Proof.
  intros Ho Hst.
  destruct (visit_class_cases o st) as [->|[k [r [Hf ->]]]];
    [assumption|].
  cbn. now apply (I_class Ho).
Qed.

Variable E : event -> Prop.
Hypothesis I_event : forall st ev, E ev -> I st -> I (with_event st ev).

Lemma visit_preserves (m : module) (st : state) :
  (forall o, In o (map snd (mod_members m)) -> P o) ->
  (forall predicate, E (EvGetMembers (mod_name m) predicate)) ->
  I st -> I (snd (visit lib_name allow (Some m) st)).
Proof.
  intros Hm He Hst. cbn [visit].
  apply mbind_preserves; [apply (I_event (He _) Hst)|]. intros _ st1 H1.
  apply mbind_preserves.
  { apply for_each_preserves; [|assumption].
    intros o s Ho. apply visit_function_preserves.
    now apply Hm, (in_getmembers m _is_callable). }
  intros _ st2 H2.
  apply mbind_preserves; [apply (I_event (He _) H2)|]. intros _ st3 H3.
  apply for_each_preserves; [|assumption].
  intros o s Ho. apply visit_class_preserves.
  now apply Hm, (in_getmembers m isclass).
Qed.

Hypothesis P_all : forall o, P o.
Hypothesis E_all : forall ev, E ev.

Lemma visit_submodule_preserves (subname : string) (st : state) :
  I st ->
  I (snd (visit_submodule import_module lib_name allow subname st)).
Proof.
  intros Hst. unfold visit_submodule.
  destruct (endswith_any subname SKIP_PATTERNS); [assumption|].
  apply mbind_preserves.
  - rewrite safe_import_state. now apply I_event.
  - intros [m|] st1 H1; [|assumption].
    apply visit_preserves; [|intros; apply E_all|assumption].
    intros o _. apply P_all.
Qed.

Lemma analyze_loaded_preserves (root : module) (st : state) :
  I st ->
  I (snd (analyze_loaded import_module walk_packages lib_name allow
            root st)).
Proof.
  intros Hst. unfold analyze_loaded.
  apply mbind_preserves.
  { apply visit_preserves; [|intros; apply E_all|assumption].
    intros o _. apply P_all. }
  intros _ st1 H1. apply mbind_preserves; [|intros; assumption].
  destruct (is_nil allow); [|assumption].
  destruct (mod_path root) as [path|]; [|assumption].
  destruct (walk_packages path (mod_name root ++ ".")%string)
    as [subnames stop].
  apply mbind_preserves; [now apply I_event|]. intros _ st2 H2.
  apply mbind_preserves.
  - apply for_each_preserves; [|assumption].
    intros subname s _. apply visit_submodule_preserves.
  - intros _ st3 H3. now destruct stop.
Qed.

End Preservation.

(** ** Distinct keys, first record kept *)

Lemma kept_from_refl (st : state) : dict_invariant st -> kept_from st st.
Proof. intros H. split; [assumption|split; apply extends_refl]. Qed.

Lemma kept_from_function (st0 : state) (o : obj) (st : state) k r :
  kept_from st0 st -> files_function lib_name allow o st k r ->
  kept_from st0 (with_function st k r).
Proof.
  intros [[F1 F2 F3 F4] [E1 E2]] [f [_ [_ [_ [Hk [Hc Hr]]]]]].
  apply get_function_metadata_name in Hr. destruct Hr as [Hn _].
  split; [split|split]; cbn; try assumption.
  - unfold dict_keys. rewrite map_app. apply NoDup_snoc; [assumption|].
    now apply dict_contains_not_In.
  - apply Forall_app. split; [assumption|]. constructor; [|constructor].
    cbn. congruence.
  - eapply extends_trans; [eassumption|apply extends_snoc].
Qed.

Lemma kept_from_class (st0 : state) (o : obj) (st : state) k r :
  kept_from st0 st -> files_class lib_name allow o st k r ->
  kept_from st0 (with_class st k r).
Proof.
  intros [[F1 F2 F3 F4] [E1 E2]] [c [_ [_ [_ [Hk [Hc Hr]]]]]].
  apply get_class_metadata_name in Hr. destruct Hr as [Hn Hm].
  split; [split|split]; cbn; try assumption.
  - unfold dict_keys. rewrite map_app. apply NoDup_snoc; [assumption|].
    now apply dict_contains_not_In.
  - apply Forall_app. split; [assumption|]. constructor; [|constructor].
    cbn. unfold class_record_key. now rewrite Hn, Hm.
  - eapply extends_trans; [eassumption|apply extends_snoc].
Qed.

Lemma kept_from_event (st0 st : state) (ev : event) :
  kept_from st0 st -> kept_from st0 (with_event st ev).
Proof.
  intros [[F1 F2 F3 F4] [E1 E2]].
  split; [split|split]; cbn; assumption.
Qed.

Lemma visit_function_known (o : obj) (f : callable) (st : state) :
  as_callable o = Some f ->
  dict_contains (name_or_repr f) (st_functions st) = true ->
  visit_function lib_name allow o st = (Ret tt, st).
Proof.
  intros Ho Hk. unfold visit_function. rewrite Ho.
  destruct (startswith (or_empty (dunder_module f)) lib_name);
    [|reflexivity].
  destruct (_want allow (name_or_repr f)); [|reflexivity].
  cbn [negb]. now rewrite Hk.
Qed.

Lemma visit_class_known (o : obj) (c : class) (st : state) :
  as_class o = Some c ->
  dict_contains (class_key (or_empty (cls_module c)) (cls_name c))
    (st_classes st) = true ->
  visit_class lib_name allow o st = (Ret tt, st).
Proof.
  intros Ho Hk. unfold visit_class. rewrite Ho.
  destruct (startswith (or_empty (cls_module c)) lib_name); [|reflexivity].
  destruct (_want allow (cls_name c)); [|reflexivity].
  cbn [negb]. now rewrite Hk.
Qed.

(** ** What a visit that returns has filed *)

Lemma visit_function_files (o : obj) (f : callable) (st : state) :
  as_callable o = Some f ->
  startswith (or_empty (dunder_module f)) lib_name = true ->
  _want allow (name_or_repr f) = true ->
  fst (visit_function lib_name allow o st) = Ret tt ->
  dict_contains (name_or_repr f)
    (st_functions (snd (visit_function lib_name allow o st))) = true.
Proof.
  intros Ho Hm Hw. unfold visit_function. rewrite Ho, Hm, Hw. cbn [negb].
  destruct (dict_contains (name_or_repr f) (st_functions st)) eqn:Hk;
    [now intros _|].
  unfold mbind, lift, set_function.
  destruct (get_function_metadata f (or_empty (dunder_module f)));
    cbn [fst snd st_functions]; [|discriminate].
  intros _. rewrite (dict_setitem_fresh _ _ _ Hk), dict_contains_app.
  cbn. rewrite String.eqb_refl. apply orb_true_r.
Qed.

Lemma visit_class_files (o : obj) (c : class) (st : state) :
  as_class o = Some c ->
  startswith (or_empty (cls_module c)) lib_name = true ->
  _want allow (cls_name c) = true ->
  fst (visit_class lib_name allow o st) = Ret tt ->
  dict_contains (class_key (or_empty (cls_module c)) (cls_name c))
    (st_classes (snd (visit_class lib_name allow o st))) = true.
Proof.
  intros Ho Hm Hw. unfold visit_class. rewrite Ho, Hm, Hw. cbn [negb].
  destruct (dict_contains (class_key (or_empty (cls_module c)) (cls_name c))
              (st_classes st)) eqn:Hk; [now intros _|].
  unfold mbind, lift, set_class.
  destruct (get_class_metadata c); cbn [fst snd st_classes];
    [|discriminate].
  intros _. rewrite (dict_setitem_fresh _ _ _ Hk), dict_contains_app.
  cbn. rewrite String.eqb_refl. apply orb_true_r.
Qed.

Lemma visit_function_keeps_key (k : string) (o : obj) (st : state) :
  dict_contains k (st_functions st) = true ->
  dict_contains k
    (st_functions (snd (visit_function lib_name allow o st))) = true.
Proof.
  intros Hk.
  destruct (visit_function_cases o st) as [->|[k' [r [_ ->]]]];
    [assumption|].
  cbn [snd with_function st_functions].
  rewrite dict_contains_app, Hk. reflexivity.
Qed.

Lemma visit_class_keeps_key (k : string) (o : obj) (st : state) :
  dict_contains k (st_classes st) = true ->
  dict_contains k (st_classes (snd (visit_class lib_name allow o st))) = true.
Proof.
  intros Hk.
  destruct (visit_class_cases o st) as [->|[k' [r [_ ->]]]]; [assumption|].
  cbn [snd with_class st_classes].
  rewrite dict_contains_app, Hk. reflexivity.
Qed.

Lemma visit_class_functions (o : obj) (st : state) :
  st_functions (snd (visit_class lib_name allow o st)) = st_functions st.
Proof.
  destruct (visit_class_cases o st) as [->|[k' [r [_ ->]]]]; reflexivity.
Qed.

(** A class member that passes the filters of [visit]. *)
Lemma visit_files_class_twice (m : module) (st st' : state) (c : class) :
  visit lib_name allow (Some m) st = (Ret tt, st') ->
  In (ClassObj c) (map snd (mod_members m)) ->
  startswith (or_empty (cls_module c)) lib_name = true ->
  _want allow (cls_name c) = true ->
  dict_contains (cls_name c) (st_functions st') = true
  /\ dict_contains (class_key (or_empty (cls_module c)) (cls_name c))
       (st_classes st') = true.
Proof.
  intros Hv Hin Hm Hw. cbn [visit] in Hv.
  apply mbind_returns in Hv. destruct Hv as [[] [st1 [_ Hv]]].
  apply mbind_returns in Hv. destruct Hv as [[] [st2 [H2 Hv]]].
  apply mbind_returns in Hv. destruct Hv as [[] [st3 [H3 Hv]]].
  assert (Hf : dict_contains (cls_name c) (st_functions st2) = true).
  { pose proof (for_each_reaches (fun _ => True)
        (fun o s => forall f, as_callable o = Some f ->
           startswith (or_empty (dunder_module f)) lib_name = true ->
           _want allow (name_or_repr f) = true ->
           dict_contains (name_or_repr f) (st_functions s) = true)
        (map snd (getmembers m _is_callable))
        (visit_function lib_name allow)) as R.
    assert (E2 : for_each (map snd (getmembers m _is_callable))
                   (visit_function lib_name allow) st1 = (Ret tt, st2))
      by exact H2.
    specialize (R (fun _ _ _ => Logic.I)).
    specialize (R (fun o s _ Hr f Ho Hmo Hwa =>
                     visit_function_files o s Ho Hmo Hwa Hr)).
    specialize (R (fun x y s Hj _ f Ho Hmo Hwa =>
                     visit_function_keeps_key _ y s (Hj f Ho Hmo Hwa))).
    specialize (R st1 Logic.I). rewrite E2 in R.
    refine (R eq_refl (ClassObj c) _ (callable_of_class c) eq_refl Hm Hw).
    apply in_getmembers. now split. }
  assert (E3 : st_functions st3 = st_functions st2)
    by (injection H3 as <-; reflexivity).
  split.
  - pose proof (for_each_preserves
        (fun s => dict_contains (cls_name c) (st_functions s) = true)
        (map snd (getmembers m isclass)) (visit_class lib_name allow)) as R.
    specialize (R (fun o s _ Hs =>
                     eq_trans (f_equal (dict_contains (cls_name c))
                                 (visit_class_functions o s)) Hs)).
    assert (Hf3 : dict_contains (cls_name c) (st_functions st3) = true)
      by (rewrite E3; exact Hf).
    specialize (R st3 Hf3). now rewrite Hv in R.
  - pose proof (for_each_reaches (fun _ => True)
        (fun o s => forall c', as_class o = Some c' ->
           startswith (or_empty (cls_module c')) lib_name = true ->
           _want allow (cls_name c') = true ->
           dict_contains (class_key (or_empty (cls_module c')) (cls_name c'))
             (st_classes s) = true)
        (map snd (getmembers m isclass)) (visit_class lib_name allow)) as R.
    specialize (R (fun _ _ _ => Logic.I)).
    specialize (R (fun o s _ Hr c' Ho Hmo Hwa =>
                     visit_class_files o s Ho Hmo Hwa Hr)).
    specialize (R (fun x y s Hj _ c' Ho Hmo Hwa =>
                     visit_class_keeps_key _ y s (Hj c' Ho Hmo Hwa))).
    specialize (R st3 Logic.I). rewrite Hv in R.
    refine (R eq_refl (ClassObj c) _ c eq_refl Hm Hw).
    apply in_getmembers. now split.
Qed.

Lemma visit_kept (m : module) (st : state) :
  dict_invariant st -> kept_from st (snd (visit lib_name allow (Some m) st)).
Proof.
  intros Hinv.
  apply visit_preserves
    with (P := fun _ : obj => True) (E := fun _ : event => True); trivial.
  - intros o s k r _. apply kept_from_function.
  - intros o s k r _. apply kept_from_class.
  - intros s ev _. apply kept_from_event.
  - now apply kept_from_refl.
Qed.

Lemma dict_contains_value {V} (k : string) (d : dict V) :
  dict_contains k d = true -> exists v, In (k, v) d.
Proof.
  intros H. apply dict_contains_In in H. unfold dict_keys in H.
  apply in_map_iff in H. destruct H as [[k' v] [E Hin]]. cbn in E.
  subst. now exists v.
Qed.

(** C9.  A class among the members of a visited module, whose module
    path starts with the library name and whose name is wanted, passes
    the callable filter and is offered to the function extraction.  It
    produces a function record of its own when no function record bears
    its name yet; when one does, that record is kept and the class
    produces none.  Either way, when the visit returns, the functions
    hold a record named after the class and the classes hold a record
    under its key. *)
Theorem class_also_filed_as_function (m : module) (st st' : state)
    (member_name : string) (c : class)
    (Hinv : dict_invariant st)
    (Hvisit : visit lib_name allow (Some m) st = (Ret tt, st'))
    (Hin : In (member_name, ClassObj c) (mod_members m))
    (Hmod : startswith (or_empty (cls_module c)) lib_name = true)
    (Hwant : _want allow (cls_name c) = true) :
  In (member_name, ClassObj c) (getmembers m _is_callable)
  /\ (exists fr, In fr (dict_values (st_functions st'))
                 /\ fr_name fr = cls_name c)
  /\ dict_contains (class_key (or_empty (cls_module c)) (cls_name c))
       (st_classes st') = true
  /\ (forall s r,
        dict_contains (cls_name c) (st_functions s) = false ->
        get_function_metadata (callable_of_class c)
          (or_empty (cls_module c)) = Ret r ->
        visit_function lib_name allow (ClassObj c) s
        = (Ret tt, with_function s (cls_name c) r))
  /\ (forall s,
        dict_contains (cls_name c) (st_functions s) = true ->
        visit_function lib_name allow (ClassObj c) s = (Ret tt, s)).
Proof.
  assert (Hin' : In (ClassObj c) (map snd (mod_members m)))
    by (apply in_map_iff; now exists (member_name, ClassObj c)).
  destruct (@visit_files_class_twice m st st' c Hvisit Hin' Hmod Hwant)
    as [Hf Hc].
  split; [apply filter_In; now split|].
  split; [|split; [exact Hc|split]].
  - destruct (@dict_contains_value _ _ _ Hf) as [fr Hfr]. exists fr. split.
    + unfold dict_values. apply in_map_iff. now exists (cls_name c, fr).
    + pose proof (@visit_kept m st Hinv) as [[_ _ Hn _] _].
      rewrite Hvisit in Hn. cbn [snd] in Hn.
      rewrite Forall_forall in Hn. exact (Hn _ Hfr).
  - intros s r Hk Hr. unfold visit_function.
    cbn [as_callable callable_of_class dunder_module name_or_repr
         dunder_name].
    rewrite Hmod, Hwant. cbn [negb]. rewrite Hk.
    unfold mbind, lift, set_function.
    cbn [callable_of_class dunder_module] in Hr. rewrite Hr.
    unfold with_function. now rewrite (dict_setitem_fresh _ _ _ Hk).
  - intros s Hk. unfold visit_function.
    cbn [as_callable callable_of_class dunder_module name_or_repr
         dunder_name].
    rewrite Hmod, Hwant. cbn [negb]. now rewrite Hk.
Qed.

(** ** Visits that return *)

Lemma structured_step_returns (f : callable) :
  callable_contained f = true ->
  exists x, structured_step f = Ret x.
Proof.
  unfold callable_contained, structured_step, _parse_sig.
  intros H. apply andb_prop in H. destruct H as [Hs Hd].
  destruct (signature f) as [ps|e]; cbn in *.
  - destruct (getdoc f) as [d|e]; cbn in *; [now eexists|].
    rewrite Hd. now eexists.
  - destruct (is_TypeError_or_ValueError e); cbn.
    + destruct (getdoc f) as [d|e']; cbn in *; [now eexists|].
      rewrite Hd. now eexists.
    + rewrite Hs. now eexists.
Qed.

Lemma get_function_metadata_returns (f : callable) (module_name : string) :
  callable_contained f = true ->
  exists r, get_function_metadata f module_name = Ret r.
Proof.
  intros H. destruct (structured_step_returns f H) as [[[args opt] doc] E].
  unfold get_function_metadata. rewrite E. cbn.
  destruct (if is_nil args then signature_fallback f doc args opt
            else (args, opt)). now eexists.
Qed.

Lemma get_class_methods_returns (members : list (string * callable)) :
  forallb method_contained members = true ->
  exists ms, get_class_methods members = Ret ms.
Proof.
  induction members as [|[name member] rest IH]; cbn [forallb];
    [now eexists|].
  intros H. apply andb_prop in H. destruct H as [Hm Hrest].
  destruct (IH Hrest) as [ms E]. cbn [get_class_methods].
  unfold method_contained in Hm. cbn [fst snd] in Hm.
  destruct (is_skipped_dunder name); [now exists ms|].
  cbn [orb] in Hm. apply andb_prop in Hm. destruct Hm as [Hs Hd].
  unfold _parse_sig.
  destruct (signature member) as [ps|e]; cbn in *.
  - destruct (getdoc member); [|discriminate]. cbn. rewrite E. cbn.
    now eexists.
  - rewrite Hs. cbn.
    destruct (getdoc member); [|discriminate]. cbn. rewrite E. cbn.
    now eexists.
Qed.

Lemma get_class_metadata_returns (c : class) :
  class_contained c = true -> exists r, get_class_metadata c = Ret r.
Proof.
  unfold class_contained. intros H.
  apply andb_prop in H. destruct H as [H Hm].
  apply andb_prop in H. destruct H as [_ Hd].
  destruct (get_class_methods_returns _ Hm) as [ms E].
  unfold get_class_metadata. rewrite E. cbn.
  destruct (cls_getdoc c); [|discriminate]. cbn. now eexists.
Qed.

Lemma visit_function_returns (o : obj) (st : state) :
  obj_contained o = true ->
  fst (visit_function lib_name allow o st) = Ret tt.
Proof.
  intros H. unfold visit_function.
  destruct (as_callable o) as [f|] eqn:Ho; [|reflexivity].
  destruct (negb (startswith (or_empty (dunder_module f)) lib_name));
    [reflexivity|].
  destruct (negb (_want allow (name_or_repr f))); [reflexivity|].
  destruct (dict_contains (name_or_repr f) (st_functions st));
    [reflexivity|].
  assert (Hf : callable_contained f = true).
  { destruct o as [|g|c]; cbn in Ho, H; try discriminate.
    - now injection Ho as <-.
    - injection Ho as <-. unfold class_contained in H.
      apply andb_prop in H. destruct H as [H _].
      apply andb_prop in H. now destruct H. }
  destruct (get_function_metadata_returns f
              (or_empty (dunder_module f)) Hf) as [r E].
  unfold mbind, lift. now rewrite E.
Qed.

Lemma visit_class_returns (o : obj) (st : state) :
  obj_contained o = true ->
  fst (visit_class lib_name allow o st) = Ret tt.
Proof.
  intros H. unfold visit_class.
  destruct o as [|g|c]; cbn [as_class]; try reflexivity.
  destruct (negb (startswith (or_empty (cls_module c)) lib_name));
    [reflexivity|].
  destruct (negb (_want allow (cls_name c))); [reflexivity|].
  destruct (dict_contains _ (st_classes st)); [reflexivity|].
  destruct (get_class_metadata_returns c H) as [r E].
  unfold mbind, lift. now rewrite E.
Qed.

Lemma for_each_all_return {A} (xs : list A) (body : A -> M unit) :
  (forall x st, In x xs -> fst (body x st) = Ret tt) ->
  forall st, fst (for_each xs body st) = Ret tt.
Proof.
  intros H st.
  apply (for_each_returns (fun _ => True) xs body); [|trivial].
  intros x s Hx _. split; [now apply H|trivial].
Qed.

Lemma mbind_both_return {A B} (c : M A) (k : A -> M B) (st : state)
    (b : B) :
  (exists a, fst (c st) = Ret a) ->
  (forall a st', fst (k a st') = Ret b) ->
  fst (mbind c k st) = Ret b.
Proof.
  intros [a Ha] Hk. unfold mbind.
  destruct (c st) as [[a'|e] st1]; cbn in Ha; [apply Hk|discriminate].
Qed.

Lemma visit_returns (m : module) (st : state) :
  module_contained m = true ->
  fst (visit lib_name allow (Some m) st) = Ret tt.
Proof.
  intros H. unfold module_contained in H. rewrite forallb_forall in H.
  assert (Ho : forall o, In o (map snd (mod_members m)) ->
                 obj_contained o = true).
  { intros o Hin. apply in_map_iff in Hin.
    destruct Hin as [no [<- Hin]]. now apply H. }
  cbn [visit].
  apply mbind_both_return; [now exists tt|]. intros _ st1.
  apply mbind_both_return.
  { exists tt. apply for_each_all_return.
    intros o s Hin. apply visit_function_returns, Ho.
    now apply (in_getmembers m _is_callable). }
  intros _ st2.
  apply mbind_both_return; [now exists tt|]. intros _ st3.
  apply for_each_all_return.
  intros o s Hin. apply visit_class_returns, Ho.
  now apply (in_getmembers m isclass).
Qed.

Lemma visit_submodule_returns (subname : string) (st : state) :
  import_contained (import_module subname) = true ->
  fst (visit_submodule import_module lib_name allow subname st) = Ret tt.
Proof.
  intros Hi. unfold visit_submodule.
  destruct (endswith_any subname SKIP_PATTERNS); [reflexivity|].
  unfold mbind at 1. rewrite safe_import_state.
  destruct (import_module subname) as [m|e]; cbn [import_contained] in Hi.
  - now apply visit_returns.
  - now rewrite Hi.
Qed.

(** ** The keys a visit files, in the order of discovery *)

Lemma visit_function_classes (o : obj) (st : state) :
  st_classes (snd (visit_function lib_name allow o st)) = st_classes st.
Proof.
  destruct (visit_function_cases o st) as [->|[k' [r [_ ->]]]]; reflexivity.
Qed.

Lemma visit_function_keys (o : obj) (st st' : state) :
  visit_function lib_name allow o st = (Ret tt, st') ->
  dict_keys (st_functions st')
  = merge_keys (dict_keys (st_functions st))
      (function_candidate lib_name allow o).
Proof.
  unfold visit_function, function_candidate.
  destruct (as_callable o) as [f|]; [|now intros H; injection H as <-].
  destruct (startswith (or_empty (dunder_module f)) lib_name);
    cbn [negb andb]; [|now intros H; injection H as <-].
  destruct (_want allow (name_or_repr f));
    cbn [negb]; [|now intros H; injection H as <-].
  unfold merge_keys. cbn [fold_left]. rewrite <- dict_contains_str_in.
  destruct (dict_contains (name_or_repr f) (st_functions st)) eqn:Hk;
    [now intros H; injection H as <-|].
  unfold mbind, lift, set_function.
  destruct (get_function_metadata f (or_empty (dunder_module f)));
    [|discriminate].
  intros H. injection H as <-. cbn [st_functions].
  rewrite (dict_setitem_fresh _ _ _ Hk). unfold dict_keys.
  now rewrite map_app.
Qed.

Lemma visit_class_keys (o : obj) (st st' : state) :
  visit_class lib_name allow o st = (Ret tt, st') ->
  dict_keys (st_classes st')
  = merge_keys (dict_keys (st_classes st)) (class_candidate lib_name allow o).
Proof.
  unfold visit_class, class_candidate.
  destruct (as_class o) as [c|]; [|now intros H; injection H as <-].
  destruct (startswith (or_empty (cls_module c)) lib_name);
    cbn [negb andb]; [|now intros H; injection H as <-].
  destruct (_want allow (cls_name c));
    cbn [negb]; [|now intros H; injection H as <-].
  unfold merge_keys. cbn [fold_left]. rewrite <- dict_contains_str_in.
  destruct (dict_contains (class_key (or_empty (cls_module c)) (cls_name c))
              (st_classes st)) eqn:Hk;
    [now intros H; injection H as <-|].
  unfold mbind, lift, set_class.
  destruct (get_class_metadata c); [|discriminate].
  intros H. injection H as <-. cbn [st_classes].
  rewrite (dict_setitem_fresh _ _ _ Hk). unfold dict_keys.
  now rewrite map_app.
Qed.

Lemma visit_keys (m : module) (st st' : state) :
  visit lib_name allow (Some m) st = (Ret tt, st') ->
  dict_keys (st_functions st')
  = merge_keys (dict_keys (st_functions st))
      (module_candidates (function_candidate lib_name allow) _is_callable m)
  /\ dict_keys (st_classes st')
     = merge_keys (dict_keys (st_classes st))
         (module_candidates (class_candidate lib_name allow) isclass m).
Proof.
  intros Hv. cbn [visit] in Hv.
  apply mbind_returns in Hv. destruct Hv as [[] [st1 [H1 Hv]]].
  apply mbind_returns in Hv. destruct Hv as [[] [st2 [H2 Hv]]].
  apply mbind_returns in Hv. destruct Hv as [[] [st3 [H3 Hv]]].
  injection H1 as <-. injection H3 as <-.
  pose proof (for_each_merge (fun s => dict_keys (st_functions s))
                (function_candidate lib_name allow) _
                (visit_function lib_name allow)
                visit_function_keys _ H2) as F.
  pose proof (for_each_unchanged st_classes
                (map snd (getmembers m _is_callable))
                (visit_function lib_name allow)
                visit_function_classes) as FC.
  specialize (FC {| st_functions := st_functions st;
                    st_classes := st_classes st;
                    st_trace := st_trace st
                      ++ [EvGetMembers (mod_name m) pred_is_callable] |}).
  rewrite H2 in FC. cbn [snd st_classes] in FC.
  pose proof (for_each_merge (fun s => dict_keys (st_classes s))
                (class_candidate lib_name allow) _
                (visit_class lib_name allow)
                visit_class_keys _ Hv) as C.
  pose proof (for_each_unchanged st_functions
                (map snd (getmembers m isclass))
                (visit_class lib_name allow)
                visit_class_functions) as CF.
  specialize (CF {| st_functions := st_functions st2;
                    st_classes := st_classes st2;
                    st_trace := st_trace st2
                      ++ [EvGetMembers (mod_name m) pred_isclass] |}).
  rewrite Hv in CF. cbn [snd st_functions] in CF.
  cbn [st_functions st_classes] in F, C.
  split.
  - rewrite CF. exact F.
  - rewrite C, FC. reflexivity.
Qed.

Lemma visit_submodule_keys (subname : string) (st st' : state) :
  visit_submodule import_module lib_name allow subname st = (Ret tt, st') ->
  dict_keys (st_functions st')
  = merge_keys (dict_keys (st_functions st))
      (submodule_candidates import_module
         (function_candidate lib_name allow) _is_callable subname)
  /\ dict_keys (st_classes st')
     = merge_keys (dict_keys (st_classes st))
         (submodule_candidates import_module
            (class_candidate lib_name allow) isclass subname).
Proof.
  unfold visit_submodule, submodule_candidates.
  destruct (endswith_any subname SKIP_PATTERNS);
    [intros H; injection H as <-; now split|].
  intros H. apply mbind_returns in H. destruct H as [md [st1 [H1 H2]]].
  rewrite safe_import_state in H1.
  destruct (import_module subname) as [m|e].
  - injection H1 as <- <-. apply visit_keys in H2. exact H2.
  - destruct (is_SystemExit e || is_Exception e); [|discriminate].
    injection H1 as <- <-. cbn in H2. injection H2 as <-. now split.
Qed.

Lemma analyze_loaded_keys (root : module) (st st' : state)
    (r : AnalysisResult) :
  analyze_loaded import_module walk_packages lib_name allow root st
  = (Ret r, st') ->
  dict_keys (st_functions st')
  = merge_keys (dict_keys (st_functions st))
      (traversal_candidates import_module walk_packages allow
         (function_candidate lib_name allow) _is_callable root)
  /\ dict_keys (st_classes st')
     = merge_keys (dict_keys (st_classes st))
         (traversal_candidates import_module walk_packages allow
            (class_candidate lib_name allow) isclass root).
Proof.
  unfold analyze_loaded, traversal_candidates. intros H.
  apply mbind_returns in H. destruct H as [[] [st1 [H1 H]]].
  apply mbind_returns in H. destruct H as [[] [st2 [H2 H]]].
  injection H as _ <-. apply visit_keys in H1. destruct H1 as [F1 C1].
  rewrite <- !merge_keys_app, <- F1, <- C1.
  destruct (is_nil allow);
    [|injection H2 as <-; now split].
  destruct (mod_path root) as [path|];
    [|injection H2 as <-; now split].
  destruct (walk_packages path (mod_name root ++ ".")%string)
    as [subnames stop]. cbn [fst].
  apply mbind_returns in H2. destruct H2 as [[] [st3 [H3 H2]]].
  apply mbind_returns in H2. destruct H2 as [[] [st4 [H4 H2]]].
  injection H3 as <-.
  assert (E : st4 = st2) by (destruct stop; [discriminate|];
                             now injection H2).
  subst st4. split.
  - apply (for_each_merge (fun s => dict_keys (st_functions s))
             (submodule_candidates import_module
                (function_candidate lib_name allow) _is_callable)
             _ _ (fun x s s' Hx => proj1 (visit_submodule_keys x s Hx))
             _ H4).
  - apply (for_each_merge (fun s => dict_keys (st_classes s))
             (submodule_candidates import_module
                (class_candidate lib_name allow) isclass)
             _ _ (fun x s s' Hx => proj2 (visit_submodule_keys x s Hx))
             _ H4).
Qed.

End Traversal.

(* ================================================================== *)
(** * The safe loader and the driver *)
(* ================================================================== *)

Section Driver.

Variable import_module : string -> res module.
Variable walk_packages : list string -> string -> list string * option exn.

(** C2.  [safe_import] returns the module when the import succeeds and
    [None] when the import raises [SystemExit] or an exception derived
    from [Exception]; any other exception of the import is raised to
    the caller. *)
Theorem safe_import_outcome (name : string) (st : state) :
  safe_import import_module name st
  = (match import_module name with
     | Ret m => Ret (Some m)
     | Raise e =>
         if is_SystemExit e || is_Exception e then Ret None else Raise e
     end,
     with_event st (EvImport name)).
Proof.
  unfold safe_import, mbind, log, lift, mtry_except, rbind, with_event.
  destruct (import_module name) as [m|e]; [reflexivity|].
  destruct e; reflexivity.
Qed.

Lemma analyze_library_unfold (lib_name : string)
    (include_only : option (list string)) (st : state) :
  analyze_library import_module walk_packages lib_name include_only st
  = match fst (safe_import import_module lib_name st) with
    | Ret None =>
        (Ret (ErrorResult ("Failed to import " ++ lib_name)%string),
         with_event st (EvImport lib_name))
    | Ret (Some root) =>
        analyze_loaded import_module walk_packages lib_name
          (allow_of include_only) root (traversal_start lib_name st)
    | Raise e => (Raise e, with_event st (EvImport lib_name))
    end.
Proof.
  unfold analyze_library, mbind at 1. rewrite safe_import_state.
  cbn [fst].
  destruct (import_module lib_name) as [m|e]; [reflexivity|].
  destruct (is_SystemExit e || is_Exception e); reflexivity.
Qed.

(** What [analyze_loaded] returns is the library result read off the
    final dictionaries. *)
Lemma analyze_loaded_result (lib_name : string) (allow : list string)
    (root : module) (st st' : state) (r : AnalysisResult) :
  analyze_loaded import_module walk_packages lib_name allow root st
  = (Ret r, st') ->
  r = LibraryResult lib_name (dict_values (st_functions st'))
        (dict_values (st_classes st')).
Proof.
  unfold analyze_loaded. unfold mbind at 1.
  destruct (visit lib_name allow (Some root) st) as [[[]|e] st1];
    [|discriminate].
  unfold mbind at 1.
  match goal with
  | |- context [match ?c st1 with _ => _ end] =>
      destruct (c st1) as [[[]|e] st2]; [|discriminate]
  end.
  intros H. now injection H as <- <-.
Qed.



(** C3.  When the import of the root library raises [SystemExit] or an
    exception derived from [Exception], [analyze_library] returns the
    error marker naming the library, having done nothing but the import
    attempt: the dictionaries are untouched and the only event is that
    import.  When it raises any other exception, that exception is
    raised to the caller, again with nothing else done, and there is no
    marker.  When the root loads, a result is never an error marker: it
    carries the library name and the values of the two dictionaries. *)
Theorem root_failure_or_library_result (lib_name : string)
    (include_only : option (list string)) (st : state) :
  (forall e,
     import_module lib_name = Raise e ->
     is_SystemExit e || is_Exception e = true ->
     analyze_library import_module walk_packages lib_name include_only st
     = (Ret (ErrorResult ("Failed to import " ++ lib_name)%string),
        with_event st (EvImport lib_name)))
  /\ (forall e,
        import_module lib_name = Raise e ->
        is_SystemExit e || is_Exception e = false ->
        analyze_library import_module walk_packages lib_name include_only st
        = (Raise e, with_event st (EvImport lib_name)))
  /\ (forall root,
        import_module lib_name = Ret root ->
        forall r st',
          analyze_library import_module walk_packages lib_name
            include_only st = (Ret r, st') ->
          r = LibraryResult lib_name (dict_values (st_functions st'))
                (dict_values (st_classes st'))).
Proof.
  rewrite analyze_library_unfold, safe_import_state. cbn [fst].
  split; [|split].
  - intros e -> He. now rewrite He.
  - intros e -> He. now rewrite He.
  - intros root -> r st'. apply analyze_loaded_result.
Qed.

Lemma dict_invariant_start (lib_name : string) (st : state) :
  dict_invariant (traversal_start lib_name st).
Proof. split; cbn; constructor. Qed.

Lemma dict_invariant_event (st : state) (ev : event) :
  dict_invariant st -> dict_invariant (with_event st ev).
Proof. intros [F1 F2 F3 F4]. split; assumption. Qed.

(** The traversal keeps every record it has filed where it is. *)
Lemma analyze_loaded_kept (lib_name : string) (allow : list string)
    (root : module) (st0 st : state) :
  kept_from st0 st ->
  kept_from st0
    (snd (analyze_loaded import_module walk_packages lib_name allow
            root st)).
Proof.
  apply analyze_loaded_preserves
    with (P := fun _ : obj => True) (E := fun _ : event => True); trivial.
  - intros o s k r _. apply kept_from_function.
  - intros o s k r _. apply kept_from_class.
  - intros s ev _. apply kept_from_event.
Qed.

Lemma analyze_library_invariant (lib_name : string)
    (include_only : option (list string)) (st : state) :
  dict_invariant st ->
  dict_invariant
    (snd (analyze_library import_module walk_packages lib_name
            include_only st)).
Proof.
  intros Hinv. rewrite analyze_library_unfold.
  destruct (fst (safe_import import_module lib_name st)) as [[root|]|e];
    cbn [snd]; try now apply dict_invariant_event.
  apply (analyze_loaded_kept lib_name (allow_of include_only) root
           (kept_from_refl (dict_invariant_start lib_name st))).
Qed.

(** C7.  From a well-formed state, every turn of the two loops of
    [visit] and every visit of a submodule leaves a well-formed state in
    which the records already filed are where they were, the new ones
    after them; a member whose key is already filed changes nothing; and
    the state in which [analyze_library] ends, and the lists it returns,
    have no two function records with the same name and no two class
    records with the same (module, name) pair; the names of the function
    records, and the keys of the class records, are those the traversal
    meets, each once, in the order in which it first meets them. *)
Theorem first_discovered_records_kept (lib_name : string)
    (allow : list string) (o : obj) (subname : string) (st : state)
    (Hinv : dict_invariant st) :
  kept_from st (snd (visit_function lib_name allow o st))
  /\ kept_from st (snd (visit_class lib_name allow o st))
  /\ kept_from st
       (snd (visit_submodule import_module lib_name allow subname st))
  /\ (forall f, as_callable o = Some f ->
        dict_contains (name_or_repr f) (st_functions st) = true ->
        visit_function lib_name allow o st = (Ret tt, st))
  /\ (forall c, as_class o = Some c ->
        dict_contains (class_key (or_empty (cls_module c)) (cls_name c))
          (st_classes st) = true ->
        visit_class lib_name allow o st = (Ret tt, st))
  /\ (forall include_only,
        let final :=
          snd (analyze_library import_module walk_packages lib_name
                 include_only st) in
        dict_invariant final
        /\ NoDup (map fr_name (dict_values (st_functions final)))
        /\ NoDup (map class_record_id (dict_values (st_classes final))))
  /\ (forall include_only library fs cs st',
        analyze_library import_module walk_packages lib_name
          include_only st = (Ret (LibraryResult library fs cs), st') ->
        NoDup (map fr_name fs) /\ NoDup (map class_record_id cs))
  /\ (forall include_only root library fs cs st',
        import_module lib_name = Ret root ->
        analyze_library import_module walk_packages lib_name
          include_only st = (Ret (LibraryResult library fs cs), st') ->
        let allowed := allow_of include_only in
        map fr_name fs
        = first_occurrences
            (traversal_candidates import_module walk_packages allowed
               (function_candidate lib_name allowed) _is_callable root)
        /\ map class_record_key cs
           = first_occurrences
               (traversal_candidates import_module walk_packages allowed
                  (class_candidate lib_name allowed) isclass root)).
Proof.
  pose proof (kept_from_refl Hinv) as Hk.
  assert (Hfinal : forall include_only,
            dict_invariant
              (snd (analyze_library import_module walk_packages lib_name
                      include_only st)))
    by (intros; now apply analyze_library_invariant).
  refine (conj _ (conj _ (conj _ (conj _ (conj _ (conj _ (conj _ _))))))).
  - apply visit_function_preserves with (P := fun _ : obj => True); trivial.
    intros o' s k r _. apply kept_from_function.
  - apply visit_class_preserves with (P := fun _ : obj => True); trivial.
    intros o' s k r _. apply kept_from_class.
  - apply visit_submodule_preserves
      with (P := fun _ : obj => True) (E := fun _ : event => True); trivial.
    + intros o' s k r _. apply kept_from_function.
    + intros o' s k r _. apply kept_from_class.
    + intros s ev _. apply kept_from_event.
  - intros f. apply visit_function_known.
  - intros c. apply visit_class_known.
  - intros include_only final. split; [apply Hfinal|].
    apply distinct_records, Hfinal.
  - intros include_only library fs cs st' E.
    pose proof (Hfinal include_only) as Hf. rewrite E in Hf. cbn in Hf.
    rewrite analyze_library_unfold in E.
    destruct (fst (safe_import import_module lib_name st))
      as [[root|]|e]; try discriminate.
    apply analyze_loaded_result in E. injection E as _ -> ->.
    now apply distinct_records.
  - intros include_only root library fs cs st' Hroot E allowed.
    rewrite analyze_library_unfold, safe_import_state, Hroot in E.
    cbn [fst] in E. fold allowed in E.
    pose proof (analyze_loaded_kept lib_name allowed root
                  (kept_from_refl (dict_invariant_start lib_name st)))
      as [Hend _].
    rewrite E in Hend. cbn [snd] in Hend.
    pose proof E as Ekeys. apply analyze_loaded_keys in Ekeys.
    destruct Ekeys as [Fk Ck].
    cbn [traversal_start st_functions st_classes dict_keys map] in Fk, Ck.
    rewrite merge_keys_nil in Fk, Ck.
    apply analyze_loaded_result in E. injection E as _ -> ->.
    split.
    + now rewrite (function_names_are_keys Hend).
    + now rewrite (class_record_keys_are_keys Hend).
Qed.

(** ** Allow-list mode *)

Lemma str_in_In (x : string) (xs : list string) :
  str_in x xs = true -> In x xs.
Proof.
  unfold str_in. rewrite existsb_exists. intros [y [Hy E]].
  apply String.eqb_eq in E. now subst.
Qed.

Lemma want_allowed (allow : list string) (name : string) :
  is_nil allow = false -> _want allow name = true -> In name allow.
Proof.
  unfold _want. intros ->. cbn [orb]. apply str_in_In.
Qed.

(** With a non-empty allow-list the driver visits the root and stops. *)
Lemma analyze_loaded_allow_list (lib_name : string) (allow : list string)
    (root : module) (st : state) :
  is_nil allow = false ->
  analyze_loaded import_module walk_packages lib_name allow root st
  = (let st' := snd (visit lib_name allow (Some root) st) in
     match fst (visit lib_name allow (Some root) st) with
     | Ret _ =>
         (Ret (LibraryResult lib_name (dict_values (st_functions st'))
                 (dict_values (st_classes st'))), st')
     | Raise e => (Raise e, st')
     end).
Proof.
  intros Hn. unfold analyze_loaded. rewrite Hn. unfold mbind, mret.
  destruct (visit lib_name allow (Some root) st) as [[[]|e] st1];
    reflexivity.
Qed.

Lemma targeted_lookup_visit (lib_name : string) (allow : list string)
    (root : module) (before : list event) (st : state) :
  is_nil allow = false ->
  targeted_lookup root allow before st ->
  targeted_lookup root allow before
    (snd (visit lib_name allow (Some root) st)).
Proof.
  intros Hn.
  apply visit_preserves
    with (P := fun o => In o (map snd (mod_members root)))
         (E := is_members_event root); [| | |trivial|].
  - intros o s k r Ho [T1 T2 T3] [f [Hf [_ [Hw [Hk [_ Hr]]]]]].
    split; cbn; [|assumption|assumption].
    apply Forall_app. split; [assumption|].
    constructor; [|constructor]. cbn. split.
    + rewrite Hk. now apply want_allowed.
    + now exists f, o.
  - intros o s k r Ho [T1 T2 T3] [c [Hc [_ [Hw [_ [_ Hr]]]]]].
    split; cbn; [assumption| |assumption].
    apply Forall_app. split; [assumption|].
    constructor; [|constructor]. cbn. exists c.
    destruct o; try discriminate. cbn in Hc. injection Hc as ->.
    split; [assumption|]. split; [now apply want_allowed|assumption].
  - intros s ev Hev [T1 T2 [events [E F]]].
    split; cbn; [assumption|assumption|].
    exists (events ++ [ev]). split.
    + rewrite E. now rewrite app_assoc.
    + apply Forall_app. split; [assumption|]. now constructor.
  - intros predicate. now exists predicate.
Qed.

Lemma NoDup_constant_length {A} (a : A) (l : list A) :
  NoDup l -> Forall (fun x => x = a) l -> List.length l <= 1.
Proof.
  intros Hn Hf. destruct l as [|x [|y l']]; cbn; try lia.
  exfalso. inversion Hf as [|? ? Hx Hf']. inversion Hf' as [|? ? Hy _].
  subst. inversion Hn as [|? ? Hnot _]. apply Hnot. now left.
Qed.

(** C8.  With a non-empty allow-list and a root that loads,
    [analyze_library] lists the members of the root and does nothing
    else: no package walk, no import of a submodule; every function and
    class record comes from a member of the root whose name is in the
    allow-list; and for the allow-list ["foo"] the result has at most one
    function record, named [foo], and class records named [foo] only. *)
Theorem allow_list_is_targeted_lookup (lib_name : string)
    (names : list string) (root : module) (st : state)
    (Hnames : names <> [])
    (Hroot : import_module lib_name = Ret root) :
  let out :=
    analyze_library import_module walk_packages lib_name (Some names) st in
  targeted_lookup root names (st_trace st ++ [EvImport lib_name]) (snd out)
  /\ (forall path prefix,
        In (EvWalkPackages path prefix) (st_trace (snd out)) ->
        In (EvWalkPackages path prefix) (st_trace st))
  /\ (forall name,
        In (EvImport name) (st_trace (snd out)) ->
        name = lib_name \/ In (EvImport name) (st_trace st))
  /\ (forall library fs cs st',
        out = (Ret (LibraryResult library fs cs), st') ->
        Forall (fun r => In (fr_name r) names) fs
        /\ Forall (fun r => In (cr_name r) names) cs
        /\ NoDup (map fr_name fs)
        /\ (names = ["foo"%string] ->
            List.length fs <= 1
            /\ Forall (fun r => fr_name r = "foo"%string) fs
            /\ Forall (fun r => cr_name r = "foo"%string) cs)).
Proof.
  assert (Hn : is_nil names = false)
    by (destruct names; [contradiction|reflexivity]).
  intros out. subst out. rewrite analyze_library_unfold.
  rewrite safe_import_state, Hroot. cbn [fst allow_of].
  rewrite analyze_loaded_allow_list by exact Hn.
  set (start := traversal_start lib_name st).
  assert (TL : targeted_lookup root names (st_trace st ++ [EvImport lib_name])
                 (snd (visit lib_name names (Some root) start))).
  { apply targeted_lookup_visit; [assumption|].
    split; cbn; [constructor|constructor|].
    exists []. split; [now rewrite app_nil_r|constructor]. }
  assert (K : kept_from start
                (snd (visit lib_name names (Some root) start)))
    by (apply visit_kept, dict_invariant_start).
  assert (Hsnd : forall (x : res unit) (s : state),
            snd (match x with
                 | Ret _ =>
                     (Ret (LibraryResult lib_name
                             (dict_values (st_functions s))
                             (dict_values (st_classes s))), s)
                 | Raise e => (Raise e, s)
                 end) = s) by (intros [|]; reflexivity).
  cbv zeta. rewrite Hsnd.
  destruct TL as [T1 T2 [events [Et Ft]]].
  refine (conj _ (conj _ (conj _ _))).
  - split; [assumption|assumption|]. now exists events.
  - intros path prefix Hin. rewrite Et, !in_app_iff in Hin.
    destruct Hin as [[Hin|[Hin|[]]]|Hin]; [assumption|discriminate|].
    rewrite Forall_forall in Ft. destruct (Ft _ Hin). discriminate.
  - intros name Hin. rewrite Et, !in_app_iff in Hin.
    destruct Hin as [[Hin|[Hin|[]]]|Hin]; [now right| |].
    + left. now injection Hin.
    + rewrite Forall_forall in Ft. destruct (Ft _ Hin). discriminate.
  - intros library fs cs st' E.
    destruct (fst (visit lib_name names (Some root) start)) as [[]|e];
      [|discriminate].
    injection E as _ <- <- _.
    assert (Hfs : Forall (fun r => In (fr_name r) names)
                    (dict_values
                       (st_functions
                          (snd (visit lib_name names (Some root) start))))).
    { unfold dict_values. rewrite Forall_map.
      eapply Forall_impl; [|exact T1]. cbn.
      intros [k r] [Hk [f [o [_ [_ [Hkf Hr]]]]]]. cbn in *.
      apply get_function_metadata_name in Hr. destruct Hr as [-> _].
      now rewrite <- Hkf. }
    assert (Hcs : Forall (fun r => In (cr_name r) names)
                    (dict_values
                       (st_classes
                          (snd (visit lib_name names (Some root) start))))).
    { unfold dict_values. rewrite Forall_map.
      eapply Forall_impl; [|exact T2]. cbn.
      intros [k r] [c [_ [Hc Hr]]]. cbn in *.
      apply get_class_metadata_name in Hr. destruct Hr as [-> _].
      assumption. }
    destruct K as [Kinv _].
    pose proof (proj1 (distinct_records Kinv)) as Hnd.
    refine (conj Hfs (conj Hcs (conj Hnd _))).
    intros ->.
    assert (Hfoo : Forall (fun r => fr_name r = "foo"%string)
                     (dict_values
                        (st_functions
                           (snd (visit lib_name ["foo"%string] (Some root)
                                   start))))).
    { eapply Forall_impl; [|exact Hfs]. cbn. intros r [H|[]]. now symmetry. }
    split; [|split; [exact Hfoo|]].
    + rewrite <- (length_map fr_name).
      apply (NoDup_constant_length (a := "foo"%string)); [assumption|].
      now rewrite Forall_map.
    + eapply Forall_impl; [|exact Hcs]. cbn. intros r [H|[]].
      now symmetry.
Qed.

End Driver.

(* ================================================================== *)
(** * The package walk and the imports it makes *)
(* ================================================================== *)

Lemma ModuleInfo_nested_ind (P : ModuleInfo -> Prop) :
  (forall name ispkg below,
     Forall P below -> P (module_info name ispkg below)) ->
  forall info, P info.
Proof.
  intros H. fix IH 1. intros [name ispkg below]. apply H.
  induction below as [|i rest IHrest]; constructor;
    [apply IH|exact IHrest].
Qed.

Section PackageWalkFacts.

Variable import_module : string -> res module.



(** A package the walk yields whose import raises an exception outside
    [Exception] ends the walk with that exception. *)
Lemma walk_all_stops (infos : list ModuleInfo) (name : string) (e : exn) :
  Forall (fun info =>
            In (name, true) (fst (walk_info import_module info)) ->
            snd (walk_info import_module info) = Some e) infos ->
  In (name, true) (fst (walk_all (walk_info import_module) infos)) ->
  snd (walk_all (walk_info import_module) infos) = Some e.
Proof.
  induction 1 as [|info rest Hinfo _ IH]; cbn [walk_all]; [intros []|].
  destruct (walk_info import_module info) as [yielded [e0|]];
    cbn [fst snd] in *.
  - intros Hin. exact (Hinfo Hin).
  - destruct (walk_all (walk_info import_module) rest) as [more stop].
    cbn [fst snd] in *. intros Hin.
    apply in_app_or in Hin. destruct Hin as [Hin|Hin];
      [specialize (Hinfo Hin); discriminate|now apply IH].
Qed.

Lemma walk_info_stops (info : ModuleInfo) (name : string) (e : exn) :
  import_module name = Raise e ->
  is_Exception e = false ->
  In (name, true) (fst (walk_info import_module info)) ->
  snd (walk_info import_module info) = Some e.
Proof.
  intros Hraise He.
  induction info as [n ispkg below IH] using ModuleInfo_nested_ind.
  cbn [walk_info].
  assert (Hhere : (n, ispkg) = (name, true) ->
                  snd (let '(yielded, stop) :=
                         if ispkg then
                           match import_module n with
                           | Raise e0 =>
                               if is_Exception e0 then ([], None)
                               else ([], Some e0)
                           | Ret m =>
                               match mod_path m with
                               | Some (_ :: _) =>
                                   walk_all (walk_info import_module) below
                               | _ => ([], None)
                               end
                           end
                         else ([], None) in
                       ((n, ispkg) :: yielded, stop)) = Some e).
  { intros H. injection H as -> ->. now rewrite Hraise, He. }
  destruct ispkg.
  - destruct (import_module n) as [m|e0] eqn:Hm.
    + destruct (mod_path m) as [[|p path]|];
        try (cbn [fst snd]; intros [H|[]]; now apply Hhere).
      pose proof (@walk_all_stops below name e IH) as Hall.
      destruct (walk_all (walk_info import_module) below)
        as [yielded stop].
      cbn [fst snd] in *. intros [H|H]; [now apply Hhere|now apply Hall].
    + destruct (is_Exception e0);
        cbn [fst snd]; intros [H|[]]; now apply Hhere.
  - cbn [fst snd]. intros [H|[]]. discriminate H.
Qed.

Variable iter_modules : list string -> string -> list ModuleInfo.


Lemma walk_infos_stops (path : list string) (prefix : string)
    (name : string) (e : exn) :
  import_module name = Raise e ->
  is_Exception e = false ->
  In (name, true) (fst (walk_infos import_module iter_modules path prefix)) ->
  snd (walk_infos import_module iter_modules path prefix) = Some e.
Proof.
  intros Hraise He. unfold walk_infos. apply walk_all_stops.
  apply Forall_forall. intros info _. now apply walk_info_stops.
Qed.


End PackageWalkFacts.

Lemma import_lib_contained (name : string) :
  import_contained (import_lib name) = true.
Proof.
  unfold import_lib.
  repeat match goal with
         | |- context [String.eqb ?a ?b] => destruct (String.eqb a b)
         end; reflexivity.
Qed.

Lemma root_failure_or_library_result_witness :
  analyze_library import_nothing walk_lib "lib" None initial_state
  = (Ret (ErrorResult "Failed to import lib"),
     with_event initial_state (EvImport "lib"))
  /\ analyze_library import_root_interrupted walk_lib "lib" None
       initial_state
     = (Raise KeyboardInterrupt, with_event initial_state (EvImport "lib"))
  /\ exists fs cs st',
       analyze_library import_lib walk_lib "lib" None initial_state
       = (Ret (LibraryResult "lib" fs cs), st').
Proof.
  split; [|split].
  - exact (proj1 (root_failure_or_library_result import_nothing walk_lib
                    "lib" None initial_state) ImportError eq_refl eq_refl).
  - exact (proj1 (proj2 (root_failure_or_library_result
                           import_root_interrupted walk_lib "lib" None
                           initial_state))
             KeyboardInterrupt eq_refl eq_refl).
  - destruct (analyze_library import_lib walk_lib "lib" None initial_state)
      as [[r|e] st'] eqn:E; [|vm_compute in E; discriminate E].
    rewrite (proj2 (proj2 (root_failure_or_library_result import_lib
                             walk_lib "lib" None initial_state))
               root_module eq_refl r st' E).
    now eexists _, _, _.
Defined.

Lemma first_discovered_records_kept_witness :
  dict_invariant initial_state
  /\ exists fs cs st',
       analyze_library import_lib walk_lib "lib" None initial_state
       = (Ret (LibraryResult "lib" fs cs), st')
       /\ map fr_name fs = ["Foo"; "foo"; "g"]
       /\ NoDup (map fr_name fs) /\ NoDup (map class_record_id cs).
Proof.
  assert (Hinv : dict_invariant initial_state) by (split; constructor).
  split; [exact Hinv|].
  destruct (analyze_library import_lib walk_lib "lib" None initial_state)
    as [[[err|library fs cs]|e] st'] eqn:E;
    [vm_compute in E; discriminate E| |vm_compute in E; discriminate E].
  assert (library = "lib"%string /\ map fr_name fs = ["Foo"; "foo"; "g"])
    as [-> Hn]
    by (vm_compute in E; injection E as <- <- <- _; split; reflexivity).
  exists fs, cs, st'. split; [reflexivity|]. split; [exact Hn|].
  destruct (first_discovered_records_kept import_lib walk_lib "lib" []
              NotCallable "lib.sub" Hinv)
    as [_ [_ [_ [_ [_ [_ [Hdistinct _]]]]]]].
  exact (Hdistinct None "lib"%string fs cs st' E).
Defined.

Lemma class_also_filed_as_function_witness :
  (exists fr,
     In fr (dict_values
              (st_functions
                 (snd (visit "lib" [] (Some root_module) initial_state))))
     /\ fr_name fr = "Foo"%string)
  /\ dict_contains "lib.Foo"
       (st_classes (snd (visit "lib" [] (Some root_module) initial_state)))
     = true.
Proof.
  assert (Hinv : dict_invariant initial_state) by (split; constructor).
  assert (Hv : visit "lib" [] (Some root_module) initial_state
               = (Ret tt,
                  snd (visit "lib" [] (Some root_module) initial_state)))
    by (vm_compute; reflexivity).
  destruct (@class_also_filed_as_function "lib" [] root_module
              initial_state _ "Foo" cls_Foo Hinv Hv
              (or_introl eq_refl) eq_refl eq_refl) as [_ [Hf [Hc _]]].
  split; [exact Hf|exact Hc].
Defined.

Lemma allow_list_is_targeted_lookup_witness :
  exists fs cs st',
    analyze_library import_lib walk_lib "lib" (Some ["foo"%string])
      initial_state = (Ret (LibraryResult "lib" fs cs), st')
    /\ List.length fs <= 1
    /\ Forall (fun r => fr_name r = "foo"%string) fs
    /\ Forall (fun r => cr_name r = "foo"%string) cs.
Proof.
  destruct (analyze_library import_lib walk_lib "lib"
              (Some ["foo"%string]) initial_state)
    as [[[err|library fs cs]|e] st'] eqn:E;
    [vm_compute in E; discriminate E| |vm_compute in E; discriminate E].
  assert (Hl : library = "lib"%string)
    by (vm_compute in E; now injection E as <- _ _ _).
  subst library. exists fs, cs, st'. split; [reflexivity|].
  pose proof (@allow_list_is_targeted_lookup import_lib walk_lib "lib"
                ["foo"%string] root_module initial_state
                ltac:(discriminate) eq_refl) as H.
  cbv zeta in H. destruct H as [_ [_ [_ H]]].
  destruct (H "lib"%string fs cs st' E) as [_ [_ [_ Hfoo]]].
  exact (Hfoo eq_refl).
Defined.

(** The sample walks are walks of [pkgutil] over the sample listings. *)
Lemma walk_lib_is_pkgutil_walk (path : list string) (prefix : string) :
  pkgutil_walk_packages import_lib iter_lib path prefix
  = walk_lib path prefix.
Proof. reflexivity. Qed.

Lemma walk_exiting_is_pkgutil_walk (path : list string) (prefix : string) :
  pkgutil_walk_packages import_lib iter_lib_cli_package path prefix
  = walk_exiting path prefix.
Proof. reflexivity. Qed.

(** C8 as stated fails for an allow-list that is supplied and empty: the
    packages are walked and every symbol is kept. *)
Lemma empty_allow_list_scans_everything :
  ~ (forall (import_module : string -> res module)
       (walk_packages : list string -> string -> list string * option exn)
       (lib_name : string) (names : list string) (st : state),
       let out :=
         analyze_library import_module walk_packages lib_name
           (Some names) st in
       (forall path prefix,
          ~ In (EvWalkPackages path prefix) (st_trace (snd out)))
       /\ Forall (fun kv => In (fst kv) names) (st_functions (snd out))).
Proof.
  intros H.
  destruct (H import_lib walk_lib "lib"%string [] initial_state)
    as [Hwalk _].
  apply (Hwalk ["/site-packages/lib"%string] "lib."%string).
  vm_compute. tauto.
Qed.



(** C2 as stated fails: an import interrupted by [KeyboardInterrupt] is
    not turned into [None]. *)
Lemma safe_import_propagates_KeyboardInterrupt :
  ~ (forall (import_module : string -> res module) (name : string)
       (st : state),
       fst (safe_import import_module name st)
       = match import_module name with
         | Ret m => Ret (Some m)
         | Raise _ => Ret None
         end).
Proof.
  intros H.
  specialize (H import_interrupted "lib.sub"%string initial_state).
  vm_compute in H. discriminate H.
Qed.

(** C3 as stated fails: when the import of the root library is
    interrupted by [KeyboardInterrupt] the library does not load, and
    [analyze_library] returns no error marker. *)
Lemma interrupted_root_import_gives_no_marker :
  ~ (forall (import_module : string -> res module)
       (walk_packages : list string -> string -> list string * option exn)
       (lib_name : string) (include_only : option (list string))
       (st : state),
       (forall root, import_module lib_name <> Ret root) ->
       exists st',
         analyze_library import_module walk_packages lib_name
           include_only st
         = (Ret (ErrorResult ("Failed to import " ++ lib_name)%string),
            st')).
Proof.
  intros H.
  destruct (H import_root_interrupted walk_lib "lib"%string None
              initial_state) as [st' E].
  - intros root. vm_compute. discriminate.
  - vm_compute in E. discriminate E.
Qed.

(** C9 as stated fails: of two classes called [Foo], the second produces
    no function record; the functions hold the record of the first
    only, while the classes hold a record for each. *)
Lemma same_named_class_files_no_function_record :
  ~ (forall (lib_name : string) (allow : list string) (m : module)
       (st st' : state) (member_name : string) (c : class),
       dict_invariant st ->
       visit lib_name allow (Some m) st = (Ret tt, st') ->
       In (member_name, ClassObj c) (mod_members m) ->
       startswith (or_empty (cls_module c)) lib_name = true ->
       _want allow (cls_name c) = true ->
       exists r,
         get_function_metadata (callable_of_class c)
           (or_empty (cls_module c)) = Ret r
         /\ In r (dict_values (st_functions st'))).
Proof.
  intros H.
  assert (Hinv : dict_invariant initial_state) by (split; constructor).
  destruct (H "lib"%string [] module_two_Foo initial_state
              (snd (visit "lib" [] (Some module_two_Foo) initial_state))
              "FooB"%string (cls_Foo_of "lib.b") Hinv)
    as [r [Hr Hin]]; try reflexivity.
  - right. now left.
  - vm_compute in Hr. injection Hr as <-.
    vm_compute in Hin. destruct Hin as [Hin|[]]. discriminate Hin.
Qed.

(* ================================================================== *)
(** * More on the extraction of one callable *)
(* ================================================================== *)

Lemma count_le_length {A} (p : A -> bool) (xs : list A) :
  count p xs <= List.length xs.
Proof. unfold count. apply filter_length_le. Qed.

Lemma parse_sig_bound (f : callable) (args : list string) (opt : nat) :
  _parse_sig f = Ret (args, opt) -> opt <= List.length args.
Proof.
  unfold _parse_sig. destruct (signature f) as [ps|e]; cbn.
  - intros H. injection H as <- <-. rewrite length_map.
    apply count_le_length.
  - destruct (is_TypeError_or_ValueError e); [|discriminate].
    intros H. injection H as <- <-. constructor.
Qed.

Lemma structured_step_bound (f : callable) (args : list string) (opt : nat)
    (doc : string) :
  structured_step f = Ret (args, opt, doc) -> opt <= List.length args.
Proof.
  unfold structured_step.
  destruct (_parse_sig f) as [[a o]|e] eqn:Hp; cbn.
  - destruct (getdoc f) as [d|e]; cbn.
    + intros H. injection H as <- <- _. now apply (@parse_sig_bound f).
    + destruct (is_Exception e); [|discriminate].
      intros H. injection H as <- <- _. constructor.
  - destruct (is_Exception e); [|discriminate].
    intros H. injection H as <- <- _. constructor.
Qed.

Lemma signature_fallback_bound (f : callable) (doc : string)
    (args : list string) (opt : nat) :
  opt <= List.length args ->
  snd (signature_fallback f doc args opt)
  <= List.length (fst (signature_fallback f doc args opt)).
Proof.
  intros H. unfold signature_fallback.
  assert (D : snd (if truthy doc
                   then match re_match_signature doc with
                        | Some sig_part =>
                            (doc_args (doc_pieces sig_part),
                             count (contains equals) (doc_pieces sig_part))
                        | None => (args, opt)
                        end
                   else (args, opt))
              <= List.length
                   (fst (if truthy doc
                         then match re_match_signature doc with
                              | Some sig_part =>
                                  (doc_args (doc_pieces sig_part),
                                   count (contains equals)
                                     (doc_pieces sig_part))
                              | None => (args, opt)
                              end
                         else (args, opt)))).
  { destruct (truthy doc); [|exact H].
    destruct (re_match_signature doc) as [sig_part|]; [|exact H].
    cbn [fst snd]. unfold doc_args. rewrite length_map.
    apply count_le_length. }
  destruct (text_signature f) as [[|c ts]|]; try exact D.
  cbn [fst snd]. rewrite text_optional_spec.
  unfold parse_text_signature. cbn [is_empty].
  rewrite parse_text_signature_loop_spec, length_map.
  unfold spec_text_optional, spec_tokens. apply count_le_length.
Qed.

(** X1.  Whatever step of the cascade gives them, the optional count of a
    function record is at most the number of its arguments. *)
Theorem optional_count_bounded (f : callable) (module_name : string)
    (r : FunctionRecord)
    (Hr : get_function_metadata f module_name = Ret r) :
  fr_optionalCount r <= List.length (fr_args r).
Proof.
  unfold get_function_metadata in Hr.
  destruct (structured_step f) as [[[args opt] doc]|e] eqn:Hs;
    [|discriminate]. cbn in Hr.
  pose proof (@structured_step_bound f args opt doc Hs) as Hb.
  pose proof (@signature_fallback_bound f doc args opt Hb) as Hf.
  destruct (is_nil args).
  - destruct (signature_fallback f doc args opt) as [a o].
    injection Hr as <-. exact Hf.
  - injection Hr as <-. exact Hb.
Qed.

Lemma optional_count_bounded_witness :
  exists r, get_function_metadata f_textual "lib" = Ret r
    /\ fr_optionalCount r <= List.length (fr_args r).
Proof.
  eexists. split; [reflexivity|].
  exact (@optional_count_bounded f_textual "lib" _ eq_refl).
Defined.

(** X2.  The [try] block that opens [get_function_metadata] lets
    through only an exception outside [Exception], raised by
    [inspect.signature] or by [inspect.getdoc].  When [inspect.signature]
    raises an exception derived from [Exception] other than [TypeError]
    and [ValueError], or when [inspect.getdoc], once reached, raises an
    exception derived from [Exception], the block gives no argument, a
    zero count and an empty documentation. *)
Theorem try_block_absorbs_Exception (f : callable) :
  (forall e,
     structured_step f = Raise e ->
     is_Exception e = false
     /\ (signature f = Raise e \/ getdoc f = Raise e))
  /\ (forall e,
        signature f = Raise e ->
        is_TypeError_or_ValueError e = false ->
        is_Exception e = true ->
        structured_step f = Ret ([], 0, EmptyString))
  /\ (forall e,
        returns (_parse_sig f) = true ->
        getdoc f = Raise e ->
        is_Exception e = true ->
        structured_step f = Ret ([], 0, EmptyString)).
Proof.
  unfold structured_step, _parse_sig. split; [|split].
  - intros e.
    destruct (signature f) as [ps|e1]; cbn.
    + destruct (getdoc f) as [d|e2]; cbn; [discriminate|].
      destruct (is_Exception e2) eqn:E; cbn; [discriminate|].
      intros H. injection H as <-. split; [assumption|now right].
    + destruct (is_TypeError_or_ValueError e1); cbn.
      * destruct (getdoc f) as [d|e2]; cbn; [discriminate|].
        destruct (is_Exception e2) eqn:E; cbn; [discriminate|].
        intros H. injection H as <-. split; [assumption|now right].
      * destruct (is_Exception e1) eqn:E; cbn; [discriminate|].
        intros H. injection H as <-. split; [assumption|now left].
  - intros e -> Ht He. cbn. rewrite Ht. cbn. now rewrite He.
  - intros e Hs -> He.
    destruct (signature f) as [ps|e1]; cbn in *.
    + now rewrite He.
    + destruct (is_TypeError_or_ValueError e1); cbn in *;
        [now rewrite He|discriminate].
Qed.

Lemma try_block_absorbs_Exception_witness :
  structured_step f_doc_fails = Ret ([], 0, EmptyString)
  /\ structured_step f_interrupting = Raise KeyboardInterrupt
  /\ is_Exception KeyboardInterrupt = false.
Proof.
  split.
  - exact (proj2 (proj2 (try_block_absorbs_Exception f_doc_fails))
             AttributeError eq_refl eq_refl eq_refl).
  - split; [reflexivity|].
    exact (proj1 (proj1 (try_block_absorbs_Exception f_interrupting)
                    KeyboardInterrupt eq_refl)).
Defined.

(** X3.  A callable that gives no parameter in the structured step, has
    no textual signature, and whose documentation does not start with a
    call, still gets a record, with no argument and a zero optional
    count. *)
Theorem unextractable_signature_degrades (f : callable)
    (module_name doc : string) (opt0 : nat)
    (Hstruct : structured_step f = Ret ([], opt0, doc))
    (Htext : text_signature f = None \/ text_signature f = Some EmptyString)
    (Hdoc : re_match_signature doc = None) :
  get_function_metadata f module_name
  = Ret {| fr_name := name_or_repr f;
           fr_args := [];
           fr_optionalCount := 0;
           fr_doc := doc;
           fr_module := module_name |}.
Proof.
  pose proof (@structured_step_bound f [] opt0 doc Hstruct) as Hb. cbn in Hb.
  assert (opt0 = 0) by lia. subst opt0.
  unfold get_function_metadata. rewrite Hstruct. cbn.
  unfold signature_fallback.
  destruct Htext as [-> | ->]; rewrite Hdoc; now destruct (truthy doc).
Qed.

Lemma unextractable_signature_degrades_witness :
  get_function_metadata f_opaque "lib"
  = Ret {| fr_name := "opaque";
           fr_args := [];
           fr_optionalCount := 0;
           fr_doc := "Does something.";
           fr_module := "lib" |}.
Proof.
  exact (@unextractable_signature_degrades f_opaque "lib" "Does something."
           0 eq_refl (or_introl eq_refl) eq_refl).
Defined.

(** X4.  The [try] block covers the documentation too: when
    [inspect.signature] succeeds and [inspect.getdoc] raises an exception
    derived from [Exception], the parameters just read are dropped; the
    record has an empty documentation and the arguments of the textual
    signature, if there is one, and none otherwise. *)
Theorem getdoc_failure_drops_parameters (f : callable)
    (module_name : string) (ps : list Param) (e : exn)
    (Hsig : signature f = Ret ps)
    (Hdoc : getdoc f = Raise e)
    (He : is_Exception e = true) :
  exists r, get_function_metadata f module_name = Ret r
    /\ fr_doc r = EmptyString
    /\ fr_args r
       = match text_signature f with
         | Some (String _ _ as text_sig) => parse_text_signature text_sig
         | _ => []
         end.
Proof.
  unfold get_function_metadata, structured_step, _parse_sig.
  rewrite Hsig, Hdoc. cbn. rewrite He. cbn.
  unfold signature_fallback.
  destruct (text_signature f) as [[|c ts]|]; cbn;
    (eexists; split; [reflexivity|]; split; reflexivity).
Qed.

Lemma getdoc_failure_drops_parameters_witness :
  exists r, get_function_metadata f_doc_fails "lib" = Ret r
    /\ fr_doc r = EmptyString /\ fr_args r = [].
Proof.
  exact (@getdoc_failure_drops_parameters f_doc_fails "lib"
           params_a_b_args AttributeError eq_refl eq_refl eq_refl).
Defined.

(* ================================================================== *)
(** * More on the extraction of one class *)
(* ================================================================== *)

Lemma get_class_methods_returns_iff (members : list (string * callable)) :
  returns (get_class_methods members) = forallb method_contained members.
Proof.
  induction members as [|[name member] rest IH]; [reflexivity|].
  cbn [get_class_methods forallb]. unfold method_contained at 1.
  cbn [fst snd].
  destruct (is_skipped_dunder name); cbn [orb]; [exact IH|].
  unfold _parse_sig.
  destruct (signature member) as [ps|e]; cbn.
  - destruct (getdoc member); cbn; [|reflexivity].
    rewrite <- IH. now destruct (get_class_methods rest).
  - destruct (is_TypeError_or_ValueError e); cbn; [|reflexivity].
    destruct (getdoc member); cbn; [|reflexivity].
    rewrite <- IH. now destruct (get_class_methods rest).
Qed.

(** X5.  [get_class_metadata] has no [try] block of its own: a function
    member that is not a skipped dunder, and for which
    [inspect.signature] raises anything but [TypeError] or [ValueError]
    or [inspect.getdoc] raises, makes it raise; an exception derived
    from [Exception] is not absorbed as it is for a function. *)
Theorem method_failure_escapes (c : class) (name : string)
    (member : callable) (e : exn)
    (Hin : In (name, member) (cls_functions c))
    (Hkept : is_skipped_dunder name = false)
    (Hfail : (signature member = Raise e
              /\ is_TypeError_or_ValueError e = false)
             \/ getdoc member = Raise e) :
  returns (get_class_metadata c) = false.
Proof.
  assert (Hm : returns (get_class_methods (cls_functions c)) = false).
  { rewrite get_class_methods_returns_iff.
    apply not_true_is_false. intros Hall.
    rewrite forallb_forall in Hall. specialize (Hall _ Hin).
    unfold method_contained in Hall. cbn [fst snd] in Hall.
    rewrite Hkept in Hall. cbn [orb] in Hall.
    apply andb_prop in Hall. destruct Hall as [Hs Hd].
    destruct Hfail as [[Hsig He]|Hdoc].
    - rewrite Hsig in Hs. cbn in Hs. congruence.
    - rewrite Hdoc in Hd. discriminate Hd. }
  unfold get_class_metadata.
  destruct (get_class_methods (cls_functions c)); [discriminate|].
  reflexivity.
Qed.

Lemma method_failure_escapes_witness :
  returns (get_class_metadata cls_broken_method) = false.
Proof.
  exact (@method_failure_escapes cls_broken_method "run" _ AttributeError
           (or_introl eq_refl) eq_refl (or_introl (conj eq_refl eq_refl))).
Defined.

Lemma get_class_methods_records (members : list (string * callable))
    (methods : list MethodRecord) :
  get_class_methods members = Ret methods ->
  Forall2 is_method_record (kept_methods members) methods.
Proof.
  revert methods.
  induction members as [|[name member] rest IH]; intros methods H.
  - cbn in H. injection H as <-. constructor.
  - cbn [get_class_methods] in H. unfold kept_methods. cbn [filter fst].
    destruct (is_skipped_dunder name); cbn [negb]; [now apply IH|].
    destruct (_parse_sig member) as [[args opt]|e] eqn:Hp;
      [|discriminate]. cbn in H.
    destruct (getdoc member) as [d|e] eqn:Hd; [|discriminate]. cbn in H.
    destruct (get_class_methods rest) as [ms|e]; [|discriminate].
    cbn in H. injection H as <-. constructor; [|now apply IH].
    repeat split; cbn; try assumption. now exists d.
Qed.

Lemma method_record_names (kept : list (string * callable))
    (methods : list MethodRecord) :
  Forall2 is_method_record kept methods ->
  map mr_name methods = map fst kept.
Proof.
  induction 1 as [|nf mr l l' [Hn _] _ IH]; [reflexivity|].
  cbn. now rewrite Hn, IH.
Qed.

Lemma method_record_bounds (kept : list (string * callable))
    (methods : list MethodRecord) :
  Forall2 is_method_record kept methods ->
  Forall (fun mr => mr_optionalCount mr <= List.length (mr_args mr)) methods.
Proof.
  induction 1 as [|nf mr l l' [_ [Hp _]] _ IH]; constructor; [|assumption].
  exact (@parse_sig_bound (snd nf) _ _ Hp).
Qed.

Lemma kept_method_names (members : list (string * callable)) :
  map fst (kept_methods members)
  = filter (fun name => negb (is_skipped_dunder name)) (map fst members).
Proof.
  unfold kept_methods.
  induction members as [|[n m] rest IH]; [reflexivity|].
  cbn [map filter fst]. destruct (is_skipped_dunder n); cbn [negb map fst];
    now rewrite IH.
Qed.

(** X6.  The methods of a class record are, in order, one record for
    each function member that is not a dunder other than [__init__],
    under the member's name and with the arguments and optional count of
    the structured step alone (no fallback); the record carries the name
    and the module of the class. *)
Theorem class_record_methods (c : class) (r : ClassRecord)
    (Hr : get_class_metadata c = Ret r) :
  Forall2 is_method_record (kept_methods (cls_functions c)) (cr_methods r)
  /\ map mr_name (cr_methods r)
     = filter (fun name => negb (is_skipped_dunder name))
         (map fst (cls_functions c))
  /\ Forall (fun mr => mr_optionalCount mr <= List.length (mr_args mr))
       (cr_methods r)
  /\ cr_name r = cls_name c
  /\ cr_module r = cls_module c.
Proof.
  unfold get_class_metadata in Hr.
  destruct (get_class_methods (cls_functions c)) as [ms|e] eqn:Hm;
    [|discriminate]. cbn in Hr.
  destruct (cls_getdoc c) as [d|e]; [|discriminate]. cbn in Hr.
  injection Hr as <-. cbn [cr_methods cr_name cr_module].
  pose proof (get_class_methods_records _ Hm) as F.
  split; [exact F|]. split; [|split; [|split; reflexivity]].
  - rewrite (method_record_names F). apply kept_method_names.
  - exact (method_record_bounds F).
Qed.

Lemma class_record_methods_witness :
  exists r, get_class_metadata cls_Foo = Ret r
    /\ map mr_name (cr_methods r) = ["__init__"].
Proof.
  eexists. split; [reflexivity|].
  exact (proj1 (proj2 (@class_record_methods cls_Foo _ eq_refl))).
Defined.

(* ================================================================== *)
(** * More on the traversal *)
(* ================================================================== *)

Lemma startswith_prefix (s p : string) :
  startswith s p = true <-> exists rest, s = (p ++ rest)%string.
Proof.
  revert s. induction p as [|a p' IH]; intros s.
  - split; [intros _; now exists s|]. intros _. now destruct s.
  - destruct s as [|b s']; cbn.
    + split; [discriminate|]. intros [rest H]. discriminate H.
    + rewrite andb_true_iff, IH. split.
      * intros [E [rest ->]]. apply Ascii.eqb_eq in E. subst.
        now exists rest.
      * intros [rest H]. injection H as -> ->. split.
        -- apply Ascii.eqb_refl.
        -- now exists rest.
Qed.

Lemma trace_extends_event (T : event -> Prop) (before : list event)
    (st : state) (ev : event) :
  T ev -> trace_extends T before st ->
  trace_extends T before (with_event st ev).
Proof.
  intros Hev [events [E F]]. exists (events ++ [ev]). split.
  - cbn. rewrite E. now rewrite app_assoc.
  - apply Forall_app. split; [assumption|]. now constructor.
Qed.

Lemma trace_extends_visit (T : event -> Prop) (before : list event)
    (lib_name : string) (allow : list string) (m : module) (st : state) :
  (forall predicate, T (EvGetMembers (mod_name m) predicate)) ->
  trace_extends T before st ->
  trace_extends T before (snd (visit lib_name allow (Some m) st)).
Proof.
  intros HT.
  apply visit_preserves with (P := fun _ : obj => True) (E := T);
    trivial.
  intros s ev Hev. now apply trace_extends_event.
Qed.

Section MoreDriver.

Variable import_module : string -> res module.
Variable walk_packages : list string -> string -> list string * option exn.

(** X7.  Every record of a result passed the two filters of [visit]: the
    module path of a function or class record has the library name as a
    plain string prefix, and its name is in the allow-list when there
    is one. *)
Theorem result_records_pass_filters (lib_name : string)
    (include_only : option (list string)) (st st' : state)
    (library : string) (fs : list FunctionRecord) (cs : list ClassRecord)
    (Hresult :
       analyze_library import_module walk_packages lib_name include_only st
       = (Ret (LibraryResult library fs cs), st')) :
  Forall (function_record_passes lib_name (allow_of include_only)) fs
  /\ Forall (class_record_passes lib_name (allow_of include_only)) cs.
Proof.
  set (allow := allow_of include_only).
  rewrite analyze_library_unfold in Hresult.
  destruct (fst (safe_import import_module lib_name st)) as [[root|]|e];
    try discriminate.
  fold allow in Hresult.
  set (I := fun s : state =>
         Forall (fun kv => function_record_passes lib_name allow (snd kv))
           (st_functions s)
         /\ Forall (fun kv => class_record_passes lib_name allow (snd kv))
              (st_classes s)).
  assert (HI : I (snd (analyze_loaded import_module walk_packages lib_name
                         allow root (traversal_start lib_name st)))).
  { apply analyze_loaded_preserves
      with (P := fun _ : obj => True) (E := fun _ : event => True);
      trivial.
    - intros o s k r _ [F C] [f [_ [Hm [Hw [_ [_ Hr]]]]]].
      apply get_function_metadata_name in Hr. destruct Hr as [Hn Hmod].
      split; [|exact C]. cbn. apply Forall_app. split; [exact F|].
      constructor; [|constructor]. cbn. split.
      + rewrite Hmod. now apply startswith_prefix.
      + now rewrite Hn.
    - intros o s k r _ [F C] [c [_ [Hm [Hw [_ [_ Hr]]]]]].
      apply get_class_metadata_name in Hr. destruct Hr as [Hn Hmod].
      split; [exact F|]. cbn. apply Forall_app. split; [exact C|].
      constructor; [|constructor]. cbn. split.
      + rewrite Hmod. now apply startswith_prefix.
      + now rewrite Hn.
    - now split. }
  rewrite Hresult in HI. cbn [snd] in HI. destruct HI as [F C].
  apply analyze_loaded_result in Hresult. injection Hresult as _ -> ->.
  unfold dict_values. rewrite !Forall_map. now split.
Qed.

Lemma trace_extends_submodule (lib_name : string) (allow : list string)
    (root : module) (before : list event) (subname : string) (st : state) :
  In subname (walked_names walk_packages allow root) ->
  trace_extends (traversal_event import_module walk_packages allow root)
    before st ->
  trace_extends (traversal_event import_module walk_packages allow root)
    before
    (snd (visit_submodule import_module lib_name allow subname st)).
Proof.
  intros Hin Hst. unfold visit_submodule.
  destruct (endswith_any subname SKIP_PATTERNS) eqn:Hskip; [exact Hst|].
  unfold mbind at 1. rewrite safe_import_state.
  assert (H1 : trace_extends
                 (traversal_event import_module walk_packages allow root)
                 before (with_event st (EvImport subname)))
    by (apply trace_extends_event; [now split|assumption]).
  destruct (import_module subname) as [m|e] eqn:Hm.
  - apply trace_extends_visit; [|exact H1].
    intros predicate. right. now exists subname, m.
  - destruct (is_SystemExit e || is_Exception e); exact H1.
Qed.

(** X8.  Once the root is loaded, the code of [analyze_library] itself
    makes no call but these: it lists the members of the root; without
    allow-list, for a root that is a package, it calls the package walk
    on the root's own path and passes to [safe_import] the walked names
    that match no skip pattern, listing the members of those that load.
    A name that ends with a skip pattern is never passed to
    [safe_import], and nothing is printed.  The imports the package
    walk makes on its own are no part of this. *)
Theorem traversal_events (lib_name : string)
    (include_only : option (list string)) (root : module) (st : state)
    (Hroot : import_module lib_name = Ret root) :
  exists events,
    st_trace (snd (analyze_library import_module walk_packages lib_name
                     include_only st))
    = st_trace st ++ EvImport lib_name :: events
    /\ Forall (traversal_event import_module walk_packages
                 (allow_of include_only) root) events.
Proof.
  set (allow := allow_of include_only).
  set (T := traversal_event import_module walk_packages allow root).
  rewrite analyze_library_unfold, safe_import_state, Hroot. cbn [fst].
  fold allow.
  assert (H : trace_extends T (st_trace st ++ [EvImport lib_name])
                (snd (analyze_loaded import_module walk_packages lib_name
                        allow root (traversal_start lib_name st)))).
  { unfold analyze_loaded.
    apply mbind_preserves.
    { apply trace_extends_visit; [intros predicate; now left|].
      exists []. split; [cbn; now rewrite app_nil_r|constructor]. }
    intros _ st1 H1. apply mbind_preserves; [|intros; assumption].
    unfold T, traversal_event, walked_names in *.
    destruct (is_nil allow) eqn:Ha; [|assumption].
    destruct (mod_path root) as [path|] eqn:Hp; [|assumption].
    destruct (walk_packages path (mod_name root ++ ".")%string)
      as [subnames stop] eqn:Hw. cbn [fst] in *.
    apply mbind_preserves.
    { apply (trace_extends_event _ (st := st1)); [now repeat split|].
      exact H1. }
    intros _ st2 H2. apply mbind_preserves; [|intros; now destruct stop].
    apply for_each_preserves; [|exact H2].
    intros subname s Hin Hs.
    pose proof (@trace_extends_submodule lib_name allow root
                  (st_trace st ++ [EvImport lib_name]) subname s) as R.
    unfold traversal_event, walked_names in R.
    rewrite Ha, Hp, Hw in R. cbn [fst] in R. now apply R. }
  destruct H as [events [E F]]. exists events. split; [|exact F].
  rewrite E, <- app_assoc. reflexivity.
Qed.

Lemma mbind_raises_right {A B} (c : M A) (k : A -> M B) (st : state) :
  (forall a st1, exists e st2, k a st1 = (Raise e, st2)) ->
  exists e st2, mbind c k st = (Raise e, st2).
Proof.
  intros Hk. unfold mbind. destruct (c st) as [[a|e] st1].
  - apply Hk.
  - now exists e, st1.
Qed.

Lemma mbind_raises_left {A B} (c : M A) (k : A -> M B) (st : state) :
  (exists e st1, c st = (Raise e, st1)) ->
  exists e st2, mbind c k st = (Raise e, st2).
Proof.
  intros [e [st1 H]]. unfold mbind. rewrite H. now exists e, st1.
Qed.

(** X9.  The loop over the package walk is not guarded: when the walk
    ends with an exception, [analyze_library] returns no result but
    raises; it raises that very exception when the visits before it
    return. *)
Theorem walk_exception_is_raised (lib_name : string)
    (include_only : option (list string)) (root : module) (st : state)
    (path : list string) (e : exn)
    (Hroot : import_module lib_name = Ret root)
    (Hallow : is_nil (allow_of include_only) = true)
    (Hpath : mod_path root = Some path)
    (Hstop : snd (walk_packages path (mod_name root ++ ".")%string)
             = Some e) :
  (exists e' st',
     analyze_library import_module walk_packages lib_name include_only st
     = (Raise e', st'))
  /\ (module_contained root = true ->
      (forall subname,
         In subname (fst (walk_packages path (mod_name root ++ ".")%string))
         -> import_contained (import_module subname) = true) ->
      exists st',
        analyze_library import_module walk_packages lib_name include_only st
        = (Raise e, st')).
Proof.
  rewrite analyze_library_unfold, safe_import_state, Hroot. cbn [fst].
  unfold analyze_loaded. rewrite Hallow, Hpath.
  destruct (walk_packages path (mod_name root ++ ".")%string)
    as [subnames stop]. cbn [fst snd] in *. subst stop.
  split.
  - apply mbind_raises_right. intros _ st1.
    apply mbind_raises_left.
    apply mbind_raises_right. intros _ st2.
    apply mbind_raises_right. intros _ st3.
    now exists e, st3.
  - intros Hmembers Hsubmodules.
    set (allow := allow_of include_only).
    pose proof (@visit_returns lib_name allow root
                  (traversal_start lib_name st) Hmembers) as Hv.
    unfold mbind at 1.
    destruct (visit lib_name allow (Some root)
                (traversal_start lib_name st)) as [[[]|e0] st1];
      cbn in Hv; [|discriminate].
    unfold mbind at 1. unfold mbind at 1. cbn [log].
    set (st2 := {| st_functions := _ |}).
    pose proof (@for_each_all_return _ subnames
                  (visit_submodule import_module lib_name allow)
                  (fun subname s Hin =>
                     @visit_submodule_returns import_module lib_name allow
                       subname s (Hsubmodules subname Hin)) st2) as Hf.
    unfold mbind at 1.
    destruct (for_each subnames
                (visit_submodule import_module lib_name allow) st2)
      as [[[]|e0] st3]; cbn in Hf; [|discriminate].
    now exists st3.
Qed.

End MoreDriver.

Lemma traversal_events_witness :
  exists events,
    st_trace (snd (analyze_library import_lib walk_lib "lib" None
                     initial_state))
    = st_trace initial_state ++ EvImport "lib" :: events
    /\ Forall (traversal_event import_lib walk_lib [] root_module) events.
Proof.
  exact (@traversal_events import_lib walk_lib "lib" None root_module
           initial_state eq_refl).
Defined.

Lemma walk_exception_is_raised_witness :
  exists st',
    analyze_library import_lib walk_exiting "lib" None initial_state
    = (Raise SystemExit, st').
Proof.
  apply (proj2 (@walk_exception_is_raised import_lib walk_exiting "lib" None
                  root_module initial_state ["/site-packages/lib"%string]
                  SystemExit eq_refl eq_refl eq_refl eq_refl)).
  - reflexivity.
  - intros subname _. apply import_lib_contained.
Defined.

Lemma result_records_pass_filters_witness :
  exists fs cs st',
    analyze_library import_lib walk_lib "lib" None initial_state
    = (Ret (LibraryResult "lib" fs cs), st')
    /\ Forall (function_record_passes "lib" []) fs.
Proof.
  destruct (analyze_library import_lib walk_lib "lib" None initial_state)
    as [[[err|library fs cs]|e] st'] eqn:E;
    [vm_compute in E; discriminate E| |vm_compute in E; discriminate E].
  assert (Hl : library = "lib"%string)
    by (vm_compute in E; now injection E as <- _ _ _).
  subst library. exists fs, cs, st'. split; [reflexivity|].
  exact (proj1 (@result_records_pass_filters import_lib walk_lib "lib" None
                  initial_state st' "lib" fs cs E)).
Defined.

(* ================================================================== *)
(** * A package that exits when imported *)
(* ================================================================== *)

Lemma analyze_loaded_walk_raises (import_module : string -> res module)
    (walk_packages : list string -> string -> list string * option exn)
    (lib_name : string) (allow : list string) (root : module)
    (path : list string) (e : exn) (st : state) :
  is_nil allow = true ->
  mod_path root = Some path ->
  snd (walk_packages path (mod_name root ++ ".")%string) = Some e ->
  exists e' st',
    analyze_loaded import_module walk_packages lib_name allow root st
    = (Raise e', st').
Proof.
  intros Hallow Hpath Hstop.
  unfold analyze_loaded. rewrite Hallow, Hpath.
  destruct (walk_packages path (mod_name root ++ ".")%string)
    as [subnames stop]. cbn [snd] in Hstop. subst stop.
  apply mbind_raises_right. intros _ st1.
  apply mbind_raises_left.
  apply mbind_raises_right. intros _ st2.
  apply mbind_raises_right. intros _ st3.
  now exists e, st3.
Qed.

(** X15.  A package among the submodules whose import raises an
    exception outside [Exception], as one that calls [sys.exit] does, is
    not skipped: the package walk imports it itself, outside
    [safe_import], and ends with that exception, so that
    [analyze_library] returns no result but raises; and this although
    [safe_import] turns [SystemExit] on the same name into [None]. *)
Theorem exiting_package_ends_analysis
    (import_module : string -> res module)
    (iter_modules : list string -> string -> list ModuleInfo)
    (lib_name : string) (include_only : option (list string))
    (root : module) (st : state) (path : list string) (name : string)
    (e : exn)
    (Hroot : import_module lib_name = Ret root)
    (Hallow : is_nil (allow_of include_only) = true)
    (Hpath : mod_path root = Some path)
    (Hyielded :
       In (name, true)
         (fst (walk_infos import_module iter_modules path
                 (mod_name root ++ ".")%string)))
    (Hraise : import_module name = Raise e)
    (He : is_Exception e = false) :
  snd (pkgutil_walk_packages import_module iter_modules path
         (mod_name root ++ ".")%string) = Some e
  /\ (is_SystemExit e = true ->
      forall s, fst (safe_import import_module name s) = Ret None)
  /\ exists e' st',
       analyze_library import_module
         (pkgutil_walk_packages import_module iter_modules)
         lib_name include_only st
       = (Raise e', st').
Proof.
  assert (Hstop : snd (pkgutil_walk_packages import_module iter_modules path
                         (mod_name root ++ ".")%string) = Some e)
    by (unfold pkgutil_walk_packages; cbn [snd];
        now apply walk_infos_stops with (name := name)).
  split; [exact Hstop|]. split.
  - intros Hexit s. rewrite safe_import_state, Hraise. cbn [fst].
    now rewrite Hexit.
  - rewrite analyze_library_unfold, safe_import_state, Hroot. cbn [fst].
    now apply analyze_loaded_walk_raises with (path := path) (e := e).
Qed.

Lemma exiting_package_ends_analysis_witness :
  snd (pkgutil_walk_packages import_lib iter_lib_cli_package
         ["/site-packages/lib"] "lib.") = Some SystemExit
  /\ fst (safe_import import_lib "lib.cli" initial_state) = Ret None
  /\ fst (analyze_library import_lib
            (pkgutil_walk_packages import_lib iter_lib_cli_package)
            "lib" None initial_state) = Raise SystemExit.
Proof.
  destruct (@exiting_package_ends_analysis import_lib iter_lib_cli_package
              "lib" None root_module initial_state
              ["/site-packages/lib"%string] "lib.cli" SystemExit
              eq_refl eq_refl eq_refl (or_introl eq_refl) eq_refl eq_refl)
    as [Hstop [Hsafe _]].
  split; [exact Hstop|]. split; [exact (Hsafe eq_refl initial_state)|].
  reflexivity.
Defined.

(* ================================================================== *)
(** * More on the textual fallbacks *)
(* ================================================================== *)

Lemma split_piece_no_sep (sep : ascii) (s piece : string) :
  In piece (split sep s) -> char_in sep piece = false.
Proof.
  revert piece. induction s as [|c r IH]; intros piece; cbn [split].
  - intros [<-|[]]. reflexivity.
  - destruct (Ascii.eqb c sep) eqn:E.
    + intros [<-|H]; [reflexivity|now apply IH].
    + pose proof (split_not_nil sep r) as Hn.
      destruct (split sep r) as [|h t]; [contradiction|].
      intros [<-|H].
      * cbn. rewrite Ascii.eqb_sym, E. cbn. apply IH. now left.
      * apply IH. now right.
Qed.

Lemma split_piece_chars (sep c : ascii) (s piece : string) :
  In piece (split sep s) -> char_in c piece = true -> char_in c s = true.
Proof.
  revert piece. induction s as [|a r IH]; intros piece; cbn [split].
  - intros [<-|[]]. trivial.
  - destruct (Ascii.eqb a sep).
    + intros [<-|H] Hc; [discriminate Hc|].
      cbn. rewrite (IH _ H Hc). apply orb_true_r.
    + pose proof (split_not_nil sep r) as Hn.
      destruct (split sep r) as [|h t]; [contradiction|].
      intros [<-|H] Hc.
      * cbn in Hc |- *. apply orb_prop in Hc. destruct Hc as [->|Hc];
          [reflexivity|].
        rewrite (IH h (or_introl eq_refl) Hc). apply orb_true_r.
      * cbn. rewrite (IH _ (or_intror H) Hc). apply orb_true_r.
Qed.

Lemma split_head_in (sep : ascii) (s : string) :
  In (split_head sep s) (split sep s).
Proof.
  unfold split_head. pose proof (split_not_nil sep s) as Hn.
  destruct (split sep s); [contradiction|]. now left.
Qed.

Lemma lstrip_by_idem (p : ascii -> bool) (s : string) :
  lstrip_by p (lstrip_by p s) = lstrip_by p s.
Proof.
  induction s as [|c r IH]; [reflexivity|]. cbn [lstrip_by].
  destruct (p c) eqn:E; [exact IH|]. cbn [lstrip_by]. now rewrite E.
Qed.

Lemma rstrip_by_idem (p : ascii -> bool) (s : string) :
  rstrip_by p (rstrip_by p s) = rstrip_by p s.
Proof.
  induction s as [|c r IH]; [reflexivity|]. cbn [rstrip_by].
  destruct (is_empty (rstrip_by p r) && p c) eqn:E; [reflexivity|].
  cbn [rstrip_by]. rewrite IH, E. reflexivity.
Qed.

Lemma rstrip_by_lstrip (p : ascii -> bool) (s : string) :
  rstrip_by p s = s -> rstrip_by p (lstrip_by p s) = lstrip_by p s.
Proof.
  induction s as [|c r IH]; [reflexivity|]. intros H.
  cbn [lstrip_by]. destruct (p c); [|exact H].
  apply IH. cbn [rstrip_by] in H.
  destruct (is_empty (rstrip_by p r) && p c); [discriminate|].
  now injection H.
Qed.

Lemma strip_by_idem (p : ascii -> bool) (s : string) :
  strip_by p (strip_by p s) = strip_by p s.
Proof.
  unfold strip_by.
  rewrite (@rstrip_by_lstrip p (rstrip_by p s) (rstrip_by_idem p s)).
  apply lstrip_by_idem.
Qed.

Lemma piece_name_clean (text piece : string) :
  In piece (split comma text) ->
  clean_name (strip (split_head equals (strip piece))).
Proof.
  intros Hin. unfold clean_name.
  pose proof (split_head_in equals (strip piece)) as Hh.
  split; [|split].
  - unfold strip at 1.
    change (char_in comma (strip_by isspace ?x))
      with (contains comma (strip_by isspace x)).
    rewrite (contains_strip_by isspace comma _ isspace_comma).
    unfold contains.
    destruct (char_in comma (split_head equals (strip piece))) eqn:E;
      [|reflexivity].
    apply (split_piece_chars equals comma _ _ Hh) in E.
    unfold strip in E.
    change (char_in comma (strip_by isspace piece))
      with (contains comma (strip_by isspace piece)) in E.
    rewrite (contains_strip_by isspace comma _ isspace_comma) in E.
    unfold contains in E.
    now rewrite (split_piece_no_sep comma text piece Hin) in E.
  - unfold strip at 1.
    change (char_in equals (strip_by isspace ?x))
      with (contains equals (strip_by isspace x)).
    rewrite (contains_strip_by isspace equals _ isspace_equals).
    exact (split_piece_no_sep equals _ _ Hh).
  - apply strip_by_idem.
Qed.

(** X10.  The names the two textual fallbacks produce contain no comma
    and no ["="], and have no white space at either end. *)
Theorem fallback_names_are_clean (text name : string)
    (Hin : In name (parse_text_signature text)
           \/ In name (doc_args (doc_pieces text))) :
  clean_name name.
Proof.
  destruct Hin as [Hin|Hin].
  - unfold parse_text_signature in Hin.
    destruct (is_empty text); [destruct Hin|].
    rewrite parse_text_signature_loop_spec in Hin.
    apply in_map_iff in Hin. destruct Hin as [tok [<- Hin]].
    apply filter_In in Hin. destruct Hin as [Hin _].
    apply filter_In in Hin. destruct Hin as [Hin _].
    apply in_map_iff in Hin. destruct Hin as [piece [<- Hin]].
    unfold spec_param_name. now apply piece_name_clean in Hin.
  - unfold doc_args, doc_pieces in Hin.
    apply in_map_iff in Hin. destruct Hin as [tok [<- Hin]].
    apply in_map_iff in Hin. destruct Hin as [piece [<- Hin]].
    apply filter_In in Hin. destruct Hin as [Hin _].
    now apply piece_name_clean in Hin.
Qed.

Lemma fallback_names_are_clean_witness : clean_name "y".
Proof.
  apply (@fallback_names_are_clean "(x, y = 2)" "y").
  left. vm_compute. tauto.
Defined.

(** ** The pattern, read as a decomposition of the text *)

Lemma lstrip_by_split (p : ascii -> bool) (s : string) :
  exists pre, s = (pre ++ lstrip_by p s)%string /\ all_chars p pre = true.
Proof.
  induction s as [|c r [pre [E A]]]; [now exists EmptyString|].
  cbn [lstrip_by]. destruct (p c) eqn:Hc.
  - exists (String c pre). cbn. rewrite Hc, A. split; [now f_equal|reflexivity].
  - now exists EmptyString.
Qed.

Lemma lstrip_by_of_app (p : ascii -> bool) (pre rest : string) :
  all_chars p pre = true -> lstrip_by p rest = rest ->
  lstrip_by p (pre ++ rest) = rest.
Proof.
  intros A R. induction pre as [|c pre' IH]; [exact R|].
  cbn in A |- *. apply andb_prop in A. destruct A as [-> A]. now apply IH.
Qed.

Lemma char_in_cons (x c : ascii) (s : string) :
  char_in x (String c s) = Ascii.eqb x c || char_in x s.
Proof. reflexivity. Qed.

Lemma lazy_group_split (s group : string) :
  lazy_group_until_rparen s = Some group ->
  exists rest,
    s = (group ++ String ")" rest)%string
    /\ char_in ")" group = false /\ char_in newline group = false.
Proof.
  revert group. induction s as [|c r IH]; intros group;
    cbn [lazy_group_until_rparen]; [discriminate|].
  destruct (Ascii.eqb c ")") eqn:Ep.
  - intros H. injection H as <-. apply Ascii.eqb_eq in Ep. subst.
    now exists r.
  - destruct (Ascii.eqb c newline) eqn:En; [discriminate|].
    destruct (lazy_group_until_rparen r) as [g|]; [|discriminate].
    cbn [option_map]. intros H. injection H as <-.
    destruct (IH g eq_refl) as [rest [E [Hp Hn]]]. exists rest.
    rewrite !char_in_cons.
    rewrite (Ascii.eqb_sym ")" c), Ep, (Ascii.eqb_sym newline c), En, Hp, Hn.
    repeat split. cbn [String.append]. now f_equal.
Qed.

Lemma lazy_group_of_app (group rest : string) :
  char_in ")" group = false -> char_in newline group = false ->
  lazy_group_until_rparen (group ++ String ")" rest) = Some group.
Proof.
  induction group as [|c g IH]; intros Hp Hn.
  - reflexivity.
  - rewrite char_in_cons in Hp, Hn. cbn [String.append].
    apply orb_false_elim in Hp. destruct Hp as [Hp1 Hp2].
    apply orb_false_elim in Hn. destruct Hn as [Hn1 Hn2].
    cbn [lazy_group_until_rparen].
    rewrite (Ascii.eqb_sym c ")"), Hp1, (Ascii.eqb_sym c newline), Hn1.
    now rewrite (IH Hp2 Hn2).
Qed.

Lemma ident_start_not_space (c : ascii) :
  is_ident_start c = true -> isspace c = false.
Proof.
  destruct c as [[] [] [] [] [] [] [] []]; vm_compute; congruence.
Qed.

(** X11.  The pattern matches a documentation text exactly when the text
    starts with white space, an identifier, ["("], a group that holds
    neither [")"] nor a newline, and [")"]; the group is what the match
    captures, so it ends at the first [")"]. *)
Theorem re_match_signature_reads_call (doc group : string) :
  re_match_signature doc = Some group <-> starts_with_call doc group.
Proof.
  unfold re_match_signature, starts_with_call. split.
  - intros H.
    destruct (lstrip_by_split isspace doc) as [ws [Ed Aw]].
    destruct (lstrip_by isspace doc) as [|c r]; [discriminate|].
    destruct (is_ident_start c) eqn:Hc; [|discriminate].
    destruct (lstrip_by_split is_ident_char r) as [tail [Er At]].
    destruct (lstrip_by is_ident_char r) as [|q r']; [discriminate|].
    destruct (Ascii.eqb q "(") eqn:Hq; [|discriminate].
    apply Ascii.eqb_eq in Hq. subst q.
    destruct (lazy_group_split _ H) as [rest [Eg [Hp Hn]]].
    exists ws, c, tail, rest. rewrite Ed, Er, Eg. now repeat split.
  - intros [ws [c [tail [rest [-> [Aw [Hc [At [Hp Hn]]]]]]]]].
    rewrite (@lstrip_by_of_app isspace ws _ Aw).
    + rewrite Hc.
      rewrite (@lstrip_by_of_app is_ident_char tail _ At); [|reflexivity].
      rewrite Ascii.eqb_refl. now apply lazy_group_of_app.
    + cbn [lstrip_by]. now rewrite (ident_start_not_space c Hc).
Qed.

(* ================================================================== *)
(** * More on the allow-list and on repeated visits *)
(* ================================================================== *)

Lemma str_in_iff (x : string) (xs : list string) :
  str_in x xs = true <-> In x xs.
Proof.
  unfold str_in. rewrite existsb_exists. split.
  - intros [y [Hy E]]. apply String.eqb_eq in E. now subst.
  - intros H. exists x. split; [assumption|apply String.eqb_refl].
Qed.

Lemma want_same_elements (a1 a2 : list string) :
  (forall x, In x a1 <-> In x a2) ->
  is_nil a1 = is_nil a2 /\ forall name, _want a1 name = _want a2 name.
Proof.
  intros H.
  assert (Hn : is_nil a1 = is_nil a2).
  { destruct a1 as [|x r], a2 as [|y r']; try reflexivity.
    - destruct (proj2 (H y) (or_introl eq_refl)).
    - destruct (proj1 (H x) (or_introl eq_refl)). }
  split; [exact Hn|]. intros name. unfold _want. rewrite Hn. f_equal.
  destruct (str_in name a1) eqn:E1, (str_in name a2) eqn:E2;
    try reflexivity.
  - apply str_in_iff, H, str_in_iff in E1. congruence.
  - apply str_in_iff, H, str_in_iff in E2. congruence.
Qed.

Lemma mbind_ext {A B} (c1 c2 : M A) (k1 k2 : A -> M B) (st : state) :
  c1 st = c2 st -> (forall a s, k1 a s = k2 a s) ->
  mbind c1 k1 st = mbind c2 k2 st.
Proof.
  intros Hc Hk. unfold mbind. rewrite Hc.
  destruct (c2 st) as [[a|e] st1]; [apply Hk|reflexivity].
Qed.

Lemma for_each_ext {A} (xs : list A) (b1 b2 : A -> M unit) :
  (forall x st, b1 x st = b2 x st) ->
  forall st, for_each xs b1 st = for_each xs b2 st.
Proof.
  intros H. induction xs as [|x rest IH]; intros st; [reflexivity|].
  cbn [for_each]. unfold mbind. rewrite H.
  destruct (b2 x st) as [[[]|e] st1]; [apply IH|reflexivity].
Qed.

Section SameAllowList.

Variable import_module : string -> res module.
Variable walk_packages : list string -> string -> list string * option exn.
Variable lib_name : string.
Variables a1 a2 : list string.
Hypothesis same_nil : is_nil a1 = is_nil a2.
Hypothesis same_want : forall name, _want a1 name = _want a2 name.

Lemma visit_function_same (o : obj) (st : state) :
  visit_function lib_name a1 o st = visit_function lib_name a2 o st.
Proof.
  unfold visit_function. destruct (as_callable o) as [f|]; [|reflexivity].
  now rewrite same_want.
Qed.

Lemma visit_class_same (o : obj) (st : state) :
  visit_class lib_name a1 o st = visit_class lib_name a2 o st.
Proof.
  unfold visit_class. destruct (as_class o) as [c|]; [|reflexivity].
  now rewrite same_want.
Qed.

Lemma visit_same (md : option module) (st : state) :
  visit lib_name a1 md st = visit lib_name a2 md st.
Proof.
  destruct md as [m|]; [|reflexivity]. cbn [visit].
  apply mbind_ext; [reflexivity|]. intros _ s1.
  apply mbind_ext; [apply for_each_ext, visit_function_same|].
  intros _ s2. apply mbind_ext; [reflexivity|]. intros _ s3.
  apply for_each_ext, visit_class_same.
Qed.

Lemma visit_submodule_same (subname : string) (st : state) :
  visit_submodule import_module lib_name a1 subname st
  = visit_submodule import_module lib_name a2 subname st.
Proof.
  unfold visit_submodule.
  destruct (endswith_any subname SKIP_PATTERNS); [reflexivity|].
  apply mbind_ext; [reflexivity|]. intros md s. apply visit_same.
Qed.

Lemma analyze_loaded_same (root : module) (st : state) :
  analyze_loaded import_module walk_packages lib_name a1 root st
  = analyze_loaded import_module walk_packages lib_name a2 root st.
Proof.
  unfold analyze_loaded.
  apply mbind_ext; [apply visit_same|]. intros _ s1.
  apply mbind_ext; [|reflexivity].
  rewrite same_nil. destruct (is_nil a2); [|reflexivity].
  destruct (mod_path root) as [path|]; [|reflexivity].
  destruct (walk_packages path (mod_name root ++ ".")%string)
    as [subnames stop].
  apply mbind_ext; [reflexivity|]. intros _ s2.
  apply mbind_ext; [|reflexivity].
  apply for_each_ext, visit_submodule_same.
Qed.

End SameAllowList.

(** X12.  The allow-list is a set: two lists with the same elements, in
    any order and with any repetition, give the same analysis. *)
Theorem allow_list_is_a_set
    (import_module : string -> res module)
    (walk_packages : list string -> string -> list string * option exn)
    (lib_name : string) (names1 names2 : list string) (st : state)
    (Hsame : forall x, In x names1 <-> In x names2) :
  analyze_library import_module walk_packages lib_name (Some names1) st
  = analyze_library import_module walk_packages lib_name (Some names2) st.
Proof.
  destruct (@want_same_elements names1 names2 Hsame) as [Hn Hw].
  unfold analyze_library.
  apply mbind_ext; [reflexivity|]. intros [root|] s1; [|reflexivity].
  apply mbind_ext; [reflexivity|]. intros _ s2.
  cbn [allow_of]. now apply analyze_loaded_same.
Qed.

Lemma allow_list_is_a_set_witness :
  analyze_library import_lib walk_lib "lib"
    (Some ["foo"; "Foo"; "foo"]%string) initial_state
  = analyze_library import_lib walk_lib "lib"
      (Some ["Foo"; "foo"]%string) initial_state.
Proof.
  apply allow_list_is_a_set. intros x. cbn. tauto.
Defined.

Lemma for_each_noop {A} (I : state -> Prop) (xs : list A)
    (body : A -> M unit) :
  (forall x st, In x xs -> I st -> body x st = (Ret tt, st)) ->
  forall st, I st -> for_each xs body st = (Ret tt, st).
Proof.
  intros H. induction xs as [|x rest IH]; intros st Hst; [reflexivity|].
  cbn [for_each]. unfold mbind. rewrite (H x st (or_introl eq_refl) Hst).
  apply IH; [|exact Hst]. intros y s Hy. apply H. now right.
Qed.

Section RepeatedVisit.

Variable lib_name : string.
Variable allow : list string.

Lemma visit_files_all (m : module) (st st1 : state) :
  visit lib_name allow (Some m) st = (Ret tt, st1) -> all_filed lib_name allow m st1.
Proof.
  intros Hv. cbn [visit] in Hv.
  apply mbind_returns in Hv. destruct Hv as [[] [sa [_ Hv]]].
  apply mbind_returns in Hv. destruct Hv as [[] [sb [H2 Hv]]].
  apply mbind_returns in Hv. destruct Hv as [[] [sc [H3 Hv]]].
  injection H3 as <-. split.
  - intros o f Hin Ho Hm Hw.
    pose proof (for_each_reaches (fun _ => True)
        (fun o s => forall f, as_callable o = Some f ->
           startswith (or_empty (dunder_module f)) lib_name = true ->
           _want allow (name_or_repr f) = true ->
           dict_contains (name_or_repr f) (st_functions s) = true)
        (map snd (getmembers m _is_callable))
        (visit_function lib_name allow)) as R.
    specialize (R (fun _ _ _ => Logic.I)).
    specialize (R (fun o s _ Hr f Ho Hmo Hwa =>
                     visit_function_files lib_name allow o s Ho Hmo Hwa Hr)).
    specialize (R (fun x y s Hj _ f Ho Hmo Hwa =>
                     visit_function_keeps_key lib_name allow _ y s
                       (Hj f Ho Hmo Hwa))).
    specialize (R sa Logic.I). rewrite H2 in R.
    specialize (R eq_refl o Hin f Ho Hm Hw). cbn [snd] in R.
    pose proof (for_each_unchanged st_functions
                  (map snd (getmembers m isclass))
                  (visit_class lib_name allow)
                  (visit_class_functions lib_name allow)) as U.
    specialize (U {| st_functions := st_functions sb;
                     st_classes := st_classes sb;
                     st_trace := st_trace sb
                       ++ [EvGetMembers (mod_name m) pred_isclass] |}).
    rewrite Hv in U. cbn [snd st_functions] in U. now rewrite U.
  - intros o c Hin Ho Hm Hw.
    pose proof (for_each_reaches (fun _ => True)
        (fun o s => forall c', as_class o = Some c' ->
           startswith (or_empty (cls_module c')) lib_name = true ->
           _want allow (cls_name c') = true ->
           dict_contains (class_key (or_empty (cls_module c')) (cls_name c'))
             (st_classes s) = true)
        (map snd (getmembers m isclass)) (visit_class lib_name allow)) as R.
    specialize (R (fun _ _ _ => Logic.I)).
    specialize (R (fun o s _ Hr c' Ho Hmo Hwa =>
                     visit_class_files lib_name allow o s Ho Hmo Hwa Hr)).
    specialize (R (fun x y s Hj _ c' Ho Hmo Hwa =>
                     visit_class_keeps_key lib_name allow _ y s
                       (Hj c' Ho Hmo Hwa))).
    match type of Hv with
    | for_each _ _ ?s0 = _ => specialize (R s0 Logic.I)
    end.
    rewrite Hv in R. exact (R eq_refl o Hin c Ho Hm Hw).
Qed.

Lemma visit_function_filed (m : module) (o : obj) (st : state) :
  In o (map snd (getmembers m _is_callable)) -> all_filed lib_name allow m st ->
  visit_function lib_name allow o st = (Ret tt, st).
Proof.
  intros Hin [HF _]. unfold visit_function.
  destruct (as_callable o) as [f|] eqn:Ho; [|reflexivity].
  destruct (startswith (or_empty (dunder_module f)) lib_name) eqn:Hm;
    [|reflexivity].
  destruct (_want allow (name_or_repr f)) eqn:Hw; [|reflexivity].
  cbn [negb]. now rewrite (HF o f Hin Ho Hm Hw).
Qed.

Lemma visit_class_filed (m : module) (o : obj) (st : state) :
  In o (map snd (getmembers m isclass)) -> all_filed lib_name allow m st ->
  visit_class lib_name allow o st = (Ret tt, st).
Proof.
  intros Hin [_ HC]. unfold visit_class.
  destruct (as_class o) as [c|] eqn:Ho; [|reflexivity].
  destruct (startswith (or_empty (cls_module c)) lib_name) eqn:Hm;
    [|reflexivity].
  destruct (_want allow (cls_name c)) eqn:Hw; [|reflexivity].
  cbn [negb]. now rewrite (HC o c Hin Ho Hm Hw).
Qed.

(** X13.  After a visit of a module that returned, visiting it again
    returns and files nothing: both dictionaries are left as they are,
    only the two listings of the members are made again. *)
Theorem visit_again_files_nothing (m : module) (st st1 : state)
    (Hvisit : visit lib_name allow (Some m) st = (Ret tt, st1)) :
  visit lib_name allow (Some m) st1
  = (Ret tt,
     with_event
       (with_event st1 (EvGetMembers (mod_name m) pred_is_callable))
       (EvGetMembers (mod_name m) pred_isclass)).
Proof.
  pose proof (@visit_files_all m st st1 Hvisit) as Hall.
  cbn [visit]. unfold mbind at 1. cbn [log].
  fold (with_event st1 (EvGetMembers (mod_name m) pred_is_callable)).
  set (s1 := with_event st1 _).
  assert (H1 : all_filed lib_name allow m s1) by exact Hall.
  unfold mbind at 1.
  rewrite (for_each_noop (all_filed lib_name allow m) _ _
             (fun o s Hin Hs => @visit_function_filed m o s Hin Hs) s1 H1).
  unfold mbind at 1. cbn [log].
  fold (with_event s1 (EvGetMembers (mod_name m) pred_isclass)).
  set (s2 := with_event s1 _).
  assert (H2 : all_filed lib_name allow m s2) by exact Hall.
  exact (for_each_noop (all_filed lib_name allow m) _ _
           (fun o s Hin Hs => @visit_class_filed m o s Hin Hs) s2 H2).
Qed.

End RepeatedVisit.

Lemma visit_again_files_nothing_witness :
  exists st1 st2,
    visit "lib" [] (Some root_module) initial_state = (Ret tt, st1)
    /\ visit "lib" [] (Some root_module) st1 = (Ret tt, st2)
    /\ st_functions st2 = st_functions st1
    /\ st_classes st2 = st_classes st1.
Proof.
  exists (snd (visit "lib" [] (Some root_module) initial_state)).
  eexists.
  assert (Hv : visit "lib" [] (Some root_module) initial_state
               = (Ret tt,
                  snd (visit "lib" [] (Some root_module) initial_state)))
    by (vm_compute; reflexivity).
  split; [exact Hv|]. split.
  - exact (@visit_again_files_nothing "lib" [] root_module initial_state
             _ Hv).
  - split; reflexivity.
Defined.

(** Two loops over the same list, turn by turn. *)
Lemma for_each_together {A} (R : state -> state -> Prop) (xs : list A)
    (b1 b2 : A -> M unit) :
  (forall x s1 s2 s1' s2',
     R s1 s2 -> b1 x s1 = (Ret tt, s1') -> b2 x s2 = (Ret tt, s2') ->
     R s1' s2') ->
  forall s1 s2 s1' s2',
    R s1 s2 ->
    for_each xs b1 s1 = (Ret tt, s1') ->
    for_each xs b2 s2 = (Ret tt, s2') ->
    R s1' s2'.
Proof.
  intros Hstep. induction xs as [|x rest IH]; intros s1 s2 s1' s2' HR H1 H2.
  - cbn in H1, H2. injection H1 as <-. injection H2 as <-. exact HR.
  - cbn [for_each] in H1, H2.
    apply mbind_returns in H1. destruct H1 as [[] [m1 [H1 H1']]].
    apply mbind_returns in H2. destruct H2 as [[] [m2 [H2 H2']]].
    exact (IH _ _ _ _ (Hstep _ _ _ _ _ HR H1 H2) H1' H2').
Qed.

Lemma dict_contains_entries_named {V} (names : list string) (k : string)
    (d : dict V) :
  dict_contains k (entries_named names d)
  = str_in k names && dict_contains k d.
Proof.
  unfold entries_named, dict_contains.
  induction d as [|[k' v] rest IH]; cbn [filter existsb fst].
  - now rewrite andb_false_r.
  - destruct (str_in k' names) eqn:Hk'; cbn [existsb fst]; rewrite IH.
    + destruct (String.eqb k k') eqn:E; cbn [orb].
      * apply String.eqb_eq in E. subst. now rewrite Hk'.
      * reflexivity.
    + destruct (String.eqb k k') eqn:E; cbn [orb]; [|reflexivity].
      apply String.eqb_eq in E. subst. rewrite Hk'. reflexivity.
Qed.

Lemma entries_named_snoc {V} (names : list string) (d : dict V)
    (k : string) (v : V) :
  entries_named names (d ++ [(k, v)])
  = entries_named names d ++ (if str_in k names then [(k, v)] else []).
Proof. unfold entries_named. rewrite filter_app. reflexivity. Qed.

Section AllowListAndFullVisit.

Variable lib_name : string.
Variable names : list string.
Hypothesis names_not_empty : names <> [].

Lemma want_all (name : string) : _want [] name = true.
Proof. reflexivity. Qed.

Lemma want_names (name : string) : _want names name = str_in name names.
Proof.
  unfold _want. destruct names; [contradiction|reflexivity].
Qed.

Lemma visit_function_together (o : obj) (s1 s2 s1' s2' : state) :
  st_functions s2 = entries_named names (st_functions s1) ->
  visit_function lib_name [] o s1 = (Ret tt, s1') ->
  visit_function lib_name names o s2 = (Ret tt, s2') ->
  st_functions s2' = entries_named names (st_functions s1').
Proof.
  intros HR. unfold visit_function.
  destruct (as_callable o) as [f|];
    [|intros H1 H2; injection H1 as <-; now injection H2 as <-].
  destruct (startswith (or_empty (dunder_module f)) lib_name);
    cbn [negb];
    [|intros H1 H2; injection H1 as <-; now injection H2 as <-].
  rewrite want_all, want_names. cbn [negb]. cbn beta.
  destruct (str_in (name_or_repr f) names) eqn:Hw; cbn [negb]; cbn beta;
    rewrite ?HR, ?dict_contains_entries_named, ?Hw; cbn [andb].
  - destruct (dict_contains (name_or_repr f) (st_functions s1)) eqn:Hk.
    + intros H1 H2. injection H1 as <-. now injection H2 as <-.
    + unfold mbind, lift, set_function.
      destruct (get_function_metadata f (or_empty (dunder_module f)))
        as [r|e]; [|discriminate].
      intros H1 H2. injection H1 as <-. injection H2 as <-.
      cbn [st_functions].
      rewrite (dict_setitem_fresh _ _ _ Hk), entries_named_snoc, Hw.
      rewrite dict_setitem_fresh; [now rewrite HR|].
      rewrite HR, dict_contains_entries_named, Hk. apply andb_false_r.
  - intros H1 H2. injection H2 as <-.
    destruct (dict_contains (name_or_repr f) (st_functions s1)) eqn:Hk.
    + now injection H1 as <-.
    + unfold mbind, lift, set_function in H1.
      destruct (get_function_metadata f (or_empty (dunder_module f)))
        as [r|e]; [|discriminate].
      injection H1 as <-. cbn [st_functions].
      rewrite (dict_setitem_fresh _ _ _ Hk), entries_named_snoc, Hw.
      now rewrite app_nil_r.
Qed.

(** X14.  From a state without function records, the function records
    that a visit with an allow-list files for a module are those that a
    visit without allow-list files for it and whose names are in the
    allow-list, in the same order, when both visits return. *)
Theorem allow_list_files_named_functions (m : module)
    (st full allowed : state)
    (Hstart : st_functions st = [])
    (Hfull : visit lib_name [] (Some m) st = (Ret tt, full))
    (Hallowed : visit lib_name names (Some m) st = (Ret tt, allowed)) :
  st_functions allowed = entries_named names (st_functions full).
Proof.
  cbn [visit] in Hfull, Hallowed.
  apply mbind_returns in Hfull. destruct Hfull as [[] [f1 [F1 Hfull]]].
  apply mbind_returns in Hfull. destruct Hfull as [[] [f2 [F2 Hfull]]].
  apply mbind_returns in Hfull. destruct Hfull as [[] [f3 [F3 Hfull]]].
  apply mbind_returns in Hallowed.
  destruct Hallowed as [[] [a1 [A1 Hallowed]]].
  apply mbind_returns in Hallowed.
  destruct Hallowed as [[] [a2 [A2 Hallowed]]].
  apply mbind_returns in Hallowed.
  destruct Hallowed as [[] [a3 [A3 Hallowed]]].
  injection F1 as <-. injection A1 as <-.
  injection F3 as <-. injection A3 as <-.
  assert (R : st_functions a2 = entries_named names (st_functions f2)).
  { eapply (for_each_together
              (fun s1 s2 =>
                 st_functions s2 = entries_named names (st_functions s1)));
      [exact visit_function_together| |exact F2|exact A2].
    cbn [st_functions]. now rewrite Hstart. }
  pose proof (for_each_unchanged st_functions
                (map snd (getmembers m isclass))
                (visit_class lib_name [])
                (visit_class_functions lib_name [])) as U1.
  pose proof (for_each_unchanged st_functions
                (map snd (getmembers m isclass))
                (visit_class lib_name names)
                (visit_class_functions lib_name names)) as U2.
  match type of Hfull with
  | for_each _ _ ?s0 = _ => specialize (U1 s0); rewrite Hfull in U1
  end.
  match type of Hallowed with
  | for_each _ _ ?s0 = _ => specialize (U2 s0); rewrite Hallowed in U2
  end.
  cbn [snd st_functions] in U1, U2. now rewrite U1, U2.
Qed.

End AllowListAndFullVisit.

Lemma allow_list_files_named_functions_witness :
  exists full allowed,
    visit "lib" [] (Some root_module) initial_state = (Ret tt, full)
    /\ visit "lib" ["foo"%string] (Some root_module) initial_state
       = (Ret tt, allowed)
    /\ st_functions allowed
       = entries_named ["foo"%string] (st_functions full).
Proof.
  exists (snd (visit "lib" [] (Some root_module) initial_state)).
  exists (snd (visit "lib" ["foo"%string] (Some root_module)
                 initial_state)).
  assert (H1 : visit "lib" [] (Some root_module) initial_state
               = (Ret tt,
                  snd (visit "lib" [] (Some root_module) initial_state)))
    by (vm_compute; reflexivity).
  assert (H2 : visit "lib" ["foo"%string] (Some root_module) initial_state
               = (Ret tt,
                  snd (visit "lib" ["foo"%string] (Some root_module)
                         initial_state)))
    by (vm_compute; reflexivity).
  split; [exact H1|]. split; [exact H2|].
  exact (@allow_list_files_named_functions "lib" ["foo"%string]
           ltac:(discriminate) root_module initial_state _ _ eq_refl H1 H2).
Defined.
